(** * Transcript discovery for meeting recordings

    A shallow embedding of the transcript-discovery code of
    [supabase/functions/process-transcripts/index.ts]:
    the name normaliser and candidate matcher (pure string code), the
    per-recording resolver [tryFetchTranscriptFromDriveItem] with its helper
    [tryFetchTranscriptFromStream], the folder scan of
    [fetchSharePointTranscripts] and the [fetch] action of the request
    handler.

    Strings are Rocq strings.  Every pattern the code matches against is
    plain ASCII, so matching on the bytes of a well-formed name agrees with
    matching on its UTF-16 code units.

    Console output and the rows written to [console_logs] are left out:
    [logToDatabase] is not awaited and catches its own failures, so neither
    changes what the functions return. *)

From Stdlib Require Import String Ascii List Bool Arith Lia.
Import ListNotations.
Local Open Scope string_scope.
Local Open Scope list_scope.

(** ** JavaScript string methods *)

Module Js.

(** [s.startsWith(p)] *)
Definition startsWith (s p : string) : bool := String.prefix p s.

(** [s.endsWith(suf)]: some tail of [s] is [suf]. *)
Fixpoint endsWith (s suf : string) : bool :=
  (s =? suf) ||
  match s with
  | EmptyString => false
  | String _ s' => endsWith s' suf
  end.

(** [s.includes(sub)]: [sub] starts at some position of [s]. *)
Fixpoint includes (s sub : string) : bool :=
  startsWith s sub ||
  match s with
  | EmptyString => false
  | String _ s' => includes s' sub
  end.

(** [s.split(sep)] for a one-character separator: never the empty array. *)
Fixpoint split (sep : ascii) (s : string) : list string :=
  match s with
  | EmptyString => [EmptyString]
  | String c s' =>
      if Ascii.eqb c sep then EmptyString :: split sep s'
      else match split sep s' with
           | h :: t => String c h :: t
           | [] => [String c EmptyString]
           end
  end.

(** [xs[0]] on an array of strings ([undefined] never arises after [split]). *)
Definition index0 (xs : list string) : string := hd EmptyString xs.

(** *** The regular expressions of the code

    All three have the shape [/atoms$/i]: a fixed sequence of atoms that
    must reach the end of the input, compared without regard to the case
    of ASCII letters. *)

Inductive atom : Type :=
| Ch (c : ascii)   (* a literal character *)
| Digit.           (* \d *)

(** Case folding of the [i] flag on an ASCII pattern: a-z go to A-Z. *)
Definition fold_case (c : ascii) : ascii :=
  let n := nat_of_ascii c in
  if ((97 <=? n) && (n <=? 122))%nat then ascii_of_nat (n - 32) else c.

Definition atom_matches (a : atom) (c : ascii) : bool :=
  match a with
  | Ch p => Ascii.eqb (fold_case p) (fold_case c)
  | Digit => let n := nat_of_ascii c in ((48 <=? n) && (n <=? 57))%nat
  end.

(** The atoms match [s] from its first character up to its end ([$]). *)
Fixpoint match_to_end (p : list atom) (s : string) : bool :=
  match p, s with
  | [], EmptyString => true
  | a :: p', String c s' => atom_matches a c && match_to_end p' s'
  | _, _ => false
  end.

(** [/p$/i.test(s)]: the pattern matches at some position. *)
Fixpoint test (p : list atom) (s : string) : bool :=
  match_to_end p s ||
  match s with
  | EmptyString => false
  | String _ s' => test p s'
  end.

(** [s.replace(/p$/i, '')]: the leftmost match is removed. *)
Fixpoint replace_end (p : list atom) (s : string) : string :=
  if match_to_end p s then EmptyString
  else match s with
       | EmptyString => EmptyString
       | String c s' => String c (replace_end p s')
       end.

(** The literal characters of a pattern. *)
Fixpoint lit (s : string) : list atom :=
  match s with
  | EmptyString => []
  | String c s' => Ch c :: lit s'
  end.

End Js.

Import Js.

(** ** NameNormalizer *)

(** [/_\d{6}UTC-Meeting Recording\.mp4$/i] *)
Definition re_stamped : list atom :=
  Ch "_" :: repeat Digit 6 ++ lit "UTC-Meeting Recording.mp4".

(** [/-Meeting Recording\.mp4$/i] *)
Definition re_recording : list atom := lit "-Meeting Recording.mp4".

(** [/\.mp4$/i] *)
Definition re_mp4 : list atom := lit ".mp4".

(** The base name of the resolver (index.ts 466-469 and again 604-607):
    three chained [replace] calls, each on the result of the one before. *)
Definition baseName (fileName : string) : string :=
  replace_end re_mp4 (replace_end re_recording (replace_end re_stamped fileName)).

(** The base name of the folder scan (index.ts 734-736): two [replace]
    calls only. *)
Definition scanBaseName (fileName : string) : string :=
  replace_end re_recording (replace_end re_stamped fileName).

(** [baseName.split('-')[0]] *)
Definition firstToken (baseName : string) : string :=
  index0 (split "-" baseName).

(** Patterns used to say what a name must not end in:
    [/_\d{6}UTC$/i], [/-Meeting Recording$/i], and six digits. *)
Definition re_stamp : list atom := Ch "_" :: repeat Digit 6 ++ lit "UTC".

Definition re_marker : list atom := lit "-Meeting Recording".

Definition sixDigits (d : string) : bool := match_to_end (repeat Digit 6) d.

(** ** CandidateMatcher *)

(** The array [matchPatterns] of index.ts 476-481. *)
Definition matchPatterns (baseName name : string) : list bool :=
  [ name =? baseName ++ ".vtt";
    name =? baseName ++ "-transcript.vtt";
    startsWith name baseName && endsWith name ".vtt";
    includes name (firstToken baseName) && endsWith name ".vtt" ].

(** [matchPatterns.some(m => m)] *)
Definition some (ms : list bool) : bool := existsb (fun m => m) ms.

(** The name part of the test of index.ts 483. *)
Definition matches (baseName name : string) : bool :=
  endsWith name ".vtt" && some (matchPatterns baseName name).

(** ** Data model *)

(** A Graph driveItem, with the fields the code reads.  [isFile] and
    [isFolder] say whether the [file] and [folder] facets are present;
    [downloadUrl] is ["@microsoft.graph.downloadUrl"], absent on folders. *)
Record DriveItem : Type := mkItem {
  id : string;
  name : string;
  isFile : bool;
  isFolder : bool;
  webUrl : string;
  lastModifiedDateTime : string;
  downloadUrl : option string
}.

(** [interface TranscriptFile] (index.ts 18-25); [t_name] is its field
    [name]. *)
Record TranscriptFile : Type := mkTranscript {
  t_name : string;
  content : string;
  url : string;
  lastModified : string;
  videoUrl : option string;
  videoFileName : option string
}.

(** A stored row of the [transcripts] table, as the upsert hands it back. *)
Record Row : Type := mkRow {
  row_id : string;
  file_name : string
}.

(** An entry of the handler's [errors] array. *)
Record ErrorEntry : Type := mkError {
  file : string;
  error : string
}.

(** ** External calls

    [NetErr e]: the awaited [fetch] (or the [json()] of an ok response)
    throws [e]; [HttpErr]: the response is not [ok]; [Body a]: the response
    is ok and [a] is what the code reads from its JSON. *)
Inductive reply (A : Type) : Type :=
| NetErr (e : string)
| HttpErr
| Body (a : A).
Arguments NetErr {A} e.
Arguments HttpErr {A}.
Arguments Body {A} a.

(** What an awaited computation comes to: a value, or a thrown error.  An
    error the code itself throws is kept as its [message], which is what
    the handler answers with; one thrown by a service is kept as the text
    the code reads of it. *)
Inductive outcome (A : Type) : Type :=
| Ret (a : A)
| Thrown (e : string).
Arguments Ret {A} a.
Arguments Thrown {A} e.

(** The four requests whose answers the resolver only logs. *)
Inductive probe : Type := Beta | Thumbnails | Versions | Analytics.

(** [const { data, error } = await supabase...upsert(...)]; [upsertError] is
    [error.message] when [error] is set. *)
Record UpsertReply : Type := mkReply {
  data : option Row;
  upsertError : option string
}.

(** The services behind the code, for one site and one access token.
    The first argument of each field is the number of external calls the
    request has awaited so far, so an answer may change from one call to
    the next.
    - [children i]: GET [/items/i/children]; the body is [value], absent
      or an array;
    - [driveItem i]: GET [/items/i?$expand=permissions]; the body is
      [parentReference.id], [None] when [parentReference] is absent;
    - [probed p i]: the beta item, thumbnails, versions and analytics
      requests of item [i];
    - [search q]: GET [/drive/root/search(q='q')]; the body is [value];
    - [download u]: [fetch(u)] followed by [text()];
    - [folderFiles]: index.ts 662-704, the token, site and folder
      requests, giving [filesData.value] or throwing;
    - [upsert t]: the awaited upsert of one transcript. *)
Record World : Type := mkWorld {
  children : nat -> string -> reply (option (list DriveItem));
  driveItem : nat -> string -> reply (option string);
  probed : nat -> probe -> string -> reply unit;
  search : nat -> string -> reply (option (list DriveItem));
  download : nat -> option string -> outcome string;
  folderFiles : nat -> outcome (list DriveItem);
  upsert : nat -> TranscriptFile -> outcome UpsertReply
}.

(** ** A monad for awaited code: a call counter and exceptions *)

Definition M (A : Type) : Type := nat -> outcome A * nat.

Definition ret {A} (a : A) : M A := fun n => (Ret a, n).

Definition throw {A} (e : string) : M A := fun n => (Thrown e, n).

Definition bind {A B} (m : M A) (k : A -> M B) : M B :=
  fun n =>
    match m n with
    | (Ret a, n') => k a n'
    | (Thrown e, n') => (Thrown e, n')
    end.

(** [try { m } catch (error) { h error }] *)
Definition tryCatch {A} (m : M A) (h : string -> M A) : M A :=
  fun n =>
    match m n with
    | (Ret a, n') => (Ret a, n')
    | (Thrown e, n') => h e n'
    end.

Declare Scope await_scope.
Delimit Scope await_scope with await.
Notation "x <- m ;; k" := (bind m (fun x => k))
  (at level 61, m at next level, right associativity) : await_scope.
Notation "m ;;; k" := (bind m (fun _ => k))
  (at level 61, right associativity) : await_scope.
Local Open Scope await_scope.

(** A block that may [return] from the enclosing function yields [Some];
    [m orElse k] goes on with [k] when [m] fell through. *)
Definition fallThrough {A} (m : M (option A)) (k : M (option A)) : M (option A) :=
  r <- m ;;
  match r with
  | Some a => ret (Some a)
  | None => k
  end.
Infix "orElse" := fallThrough (at level 62, right associativity) : await_scope.

(** [value || []] *)
Definition orEmpty {A} (v : option (list A)) : list A :=
  match v with
  | Some l => l
  | None => []
  end.

(** ** TranscriptResolver *)

Section Resolver.

Variable w : World.

(** [const r = await fetch(url)] followed by [if (r.ok) { ... await r.json() ... }] *)
Definition fetchOk {A} (call : nat -> reply A) : M (option A) :=
  fun n =>
    match call n with
    | NetErr e => (Thrown e, S n)
    | HttpErr => (Ret None, S n)
    | Body a => (Ret (Some a), S n)
    end.

(** [const contentResponse = await fetch(downloadUrl); await contentResponse.text()] *)
Definition fetchText (downloadUrl : option string) : M string :=
  fun n => (download w n downloadUrl, S n).

(** The object literal built at every place that found a transcript. *)
Definition transcriptOf (f : DriveItem) (content : string)
    (videoUrl videoFileName : option string) : TranscriptFile :=
  {| t_name := name f; content := content; url := webUrl f;
     lastModified := lastModifiedDateTime f;
     videoUrl := videoUrl; videoFileName := videoFileName |}.

(** [for (const file of items) { if (cond(file)) { ...download...; return {...} } }]:
    the first item that passes is downloaded and returned; a failed
    download throws out of the loop. *)
Fixpoint returnFirst (cond : DriveItem -> bool) (fileName : string)
    (videoUrl : option string) (items : list DriveItem)
    : M (option TranscriptFile) :=
  match items with
  | [] => ret None
  | f :: rest =>
      if cond f then
        content <- fetchText (downloadUrl f) ;;
        ret (Some (transcriptOf f content videoUrl (Some fileName)))
      else returnFirst cond fileName videoUrl rest
  end.

(** [file.file && file.name.endsWith('.vtt')] *)
Definition isVttFile (f : DriveItem) : bool :=
  isFile f && endsWith (name f) ".vtt".

(** index.ts 348-424 *)
Definition tryFetchTranscriptFromStream (driveItemId fileName : string)
    (videoUrl : option string) : M (option TranscriptFile) :=
  tryCatch
    ((childrenData <- fetchOk (fun n => children w n driveItemId) ;;
      match childrenData with
      | Some value => returnFirst isVttFile fileName videoUrl (orEmpty value)
      | None => ret None
      end)
     orElse
     (fetchOk (fun n => probed w n Beta driveItemId) ;;;
      fetchOk (fun n => probed w n Thumbnails driveItemId) ;;;
      ret None))
    (fun _ => ret None).

(** The test of index.ts 483 on an item of the parent folder. *)
Definition parentCandidate (baseName : string) (f : DriveItem) : bool :=
  isFile f && endsWith (name f) ".vtt" && some (matchPatterns baseName (name f)).

(** index.ts 475-499: the rescan of the parent folder. *)
Definition parentRescan (baseName fileName : string) (videoUrl : option string)
    (allItems : list DriveItem) : M (option TranscriptFile) :=
  returnFirst (parentCandidate baseName) fileName videoUrl allItems.

(** The predicate of the [find] of index.ts 501-503. *)
Definition folderNamed (baseName : string) (item : DriveItem) : bool :=
  isFolder item && ((name item =? baseName) || includes (name item) baseName).

(** index.ts 501-538: the folder named after the recording.  Line 517 maps
    over [folderData.value] and throws when it is absent. *)
Definition matchingSubfolder (baseName fileName : string) (videoUrl : option string)
    (allItems : list DriveItem) : M (option TranscriptFile) :=
  match find (folderNamed baseName) allItems with
  | Some folderNameMatch =>
      folderData <- fetchOk (fun n => children w n (id folderNameMatch)) ;;
      match folderData with
      | Some None => throw "Cannot read properties of undefined (reading 'map')"
      | Some (Some files) => returnFirst isVttFile fileName videoUrl files
      | None => ret None
      end
  | None => ret None
  end.

(** The predicate of the [find] of index.ts 540-542. *)
Definition transcriptFolderNamed (item : DriveItem) : bool :=
  isFolder item && ((name item =? "Transcript") || (name item =? "Transcripts")).

(** The test of index.ts 558. *)
Definition transcriptFolderCandidate (baseName : string) (f : DriveItem) : bool :=
  isFile f && endsWith (name f) ".vtt" && includes (name f) (firstToken baseName).

(** index.ts 540-576: the folder [Transcript] or [Transcripts]. *)
Definition transcriptsSubfolder (baseName fileName : string) (videoUrl : option string)
    (allItems : list DriveItem) : M (option TranscriptFile) :=
  match find transcriptFolderNamed allItems with
  | Some transcriptFolder =>
      transcriptFolderData <- fetchOk (fun n => children w n (id transcriptFolder)) ;;
      match transcriptFolderData with
      | Some value =>
          returnFirst (transcriptFolderCandidate baseName) fileName videoUrl (orEmpty value)
      | None => ret None
      end
  | None => ret None
  end.

(** index.ts 464-579: what is done with an ok listing of the parent folder. *)
Definition parentFolderStrategies (fileName : string) (videoUrl : option string)
    (allItems : list DriveItem) : M (option TranscriptFile) :=
  let baseName := baseName fileName in
  parentRescan baseName fileName videoUrl allItems
  orElse matchingSubfolder baseName fileName videoUrl allItems
  orElse transcriptsSubfolder baseName fileName videoUrl allItems.

(** index.ts 609-614 *)
Definition searchQueries (baseName : string) : list string :=
  [ (baseName ++ ".vtt")%string;
    (baseName ++ "-transcript.vtt")%string;
    (firstToken baseName ++ ".vtt")%string;
    firstToken baseName ].

(** index.ts 616-649: one search request per query, in order. *)
Fixpoint searchLoop (fileName : string) (videoUrl : option string)
    (queries : list string) : M (option TranscriptFile) :=
  match queries with
  | [] => ret None
  | query :: rest =>
      (searchData <- fetchOk (fun n => search w n query) ;;
       match searchData with
       | Some value => returnFirst isVttFile fileName videoUrl (orEmpty value)
       | None => ret None
       end)
      orElse searchLoop fileName videoUrl rest
  end.

(** index.ts 581-652: versions, analytics, then the search fallback. *)
Definition afterParent (driveItemId fileName : string) (videoUrl : option string)
    : M (option TranscriptFile) :=
  fetchOk (fun n => probed w n Versions driveItemId) ;;;
  fetchOk (fun n => probed w n Analytics driveItemId) ;;;
  searchLoop fileName videoUrl (searchQueries (baseName fileName)).

(** index.ts 441-652: the body of the resolver after the stream lookup. *)
Definition afterStream (driveItemId fileName : string) (videoUrl : option string)
    : M (option TranscriptFile) :=
  itemData <- fetchOk (fun n => driveItem w n driveItemId) ;;
  match itemData with
  | None => ret None
  | Some parentReference =>
      parentId <- match parentReference with
                  | Some i => ret i
                  | None => throw "Cannot read properties of undefined (reading 'id')"
                  end ;;
      ((parentData <- fetchOk (fun n => children w n parentId) ;;
        match parentData with
        | Some value => parentFolderStrategies fileName videoUrl (orEmpty value)
        | None => ret None
        end)
       orElse afterParent driveItemId fileName videoUrl)
  end.

(** index.ts 426-657 *)
Definition tryFetchTranscriptFromDriveItem (driveItemId fileName : string)
    (videoUrl : option string) : M (option TranscriptFile) :=
  tryCatch
    (tryFetchTranscriptFromStream driveItemId fileName videoUrl
     orElse afterStream driveItemId fileName videoUrl)
    (fun _ => ret None).

End Resolver.

(** ** FolderScanOrchestrator *)

(** [processedVttNames], a [Set<string>] used through [has] and [add] only. *)
Definition NameSet : Type := list string.

Definition has (s : NameSet) (x : string) : bool := existsb (String.eqb x) s.

Definition add (s : NameSet) (x : string) : NameSet := x :: s.

(** [for (const x of xs) { ... }] over loop-carried variables [st]. *)
Fixpoint forOf {S A : Type} (body : S -> A -> M S) (xs : list A) (st : S) : M S :=
  match xs with
  | [] => ret st
  | x :: rest => st' <- body st x ;; forOf body rest st'
  end.

(** index.ts 705 *)
Definition vttFilesOf (allFiles : list DriveItem) : list DriveItem :=
  filter (fun f => isFile f && endsWith (name f) ".vtt") allFiles.

(** index.ts 706 *)
Definition mp4FilesOf (allFiles : list DriveItem) : list DriveItem :=
  filter (fun f => isFile f && endsWith (name f) ".mp4"
                   && includes (name f) "Meeting Recording") allFiles.

(** index.ts 738 *)
Definition possibleVttName (mp4Name : string) : string :=
  scanBaseName mp4Name ++ ".vtt".

(** The test of index.ts 786. *)
Definition isTextFile (f : DriveItem) : bool :=
  isFile f && (endsWith (name f) ".txt" || endsWith (name f) ".docx").

Section Scan.

Variable w : World.

(** The variables the three loops update: [transcripts] and
    [processedVttNames].  In every [try] block the updates come after the
    last call that can throw, so the [catch] finds them as they were when
    the block was entered. *)
Definition ScanState : Type := (list TranscriptFile * NameSet)%type.

(** index.ts 712-730: one round of the loop over [vttFiles]. *)
Definition vttStep (st : ScanState) (vttFile : DriveItem) : M ScanState :=
  let '(transcripts, processedVttNames) := st in
  tryCatch
    (content <- fetchText w (downloadUrl vttFile) ;;
     ret (transcripts ++ [transcriptOf vttFile content None None],
          add processedVttNames (name vttFile)))
    (fun _ => ret st).

(** index.ts 732-783: one round of the loop over [mp4Files];
    [fromDriveItem] is the [else] branch of 762-779. *)
Definition mp4Step (vttFiles : list DriveItem) (st : ScanState) (mp4File : DriveItem)
    : M ScanState :=
  let '(transcripts, processedVttNames) := st in
  tryCatch
    (let possibleVttName := possibleVttName (name mp4File) in
     if has processedVttNames possibleVttName then ret st
     else
       let fromDriveItem :=
         transcriptFromDriveItem <-
           tryFetchTranscriptFromDriveItem w (id mp4File) (name mp4File)
             (Some (webUrl mp4File)) ;;
         match transcriptFromDriveItem with
         | Some t => ret (transcripts ++ [t], processedVttNames)
         | None => ret st
         end in
       match find (fun f => name f =? possibleVttName) vttFiles with
       | Some vttFile =>
           if negb (has processedVttNames (name vttFile)) then
             content <- fetchText w (downloadUrl vttFile) ;;
             ret (transcripts ++ [transcriptOf vttFile content
                                    (Some (webUrl mp4File)) (Some (name mp4File))],
                  add processedVttNames (name vttFile))
           else fromDriveItem
       | None => fromDriveItem
       end)
    (fun _ => ret st).

(** index.ts 785-804: one round of the loop over [allFiles]. *)
Definition textStep (transcripts : list TranscriptFile) (f : DriveItem)
    : M (list TranscriptFile) :=
  if isTextFile f then
    tryCatch
      (content <- fetchText w (downloadUrl f) ;;
       ret (transcripts ++ [transcriptOf f content None None]))
      (fun _ => ret transcripts)
  else ret transcripts.

(** index.ts 702-807: [fetchSharePointTranscripts] from [filesData.value] on. *)
Definition scan (allFiles : list DriveItem) : M (list TranscriptFile) :=
  let vttFiles := vttFilesOf allFiles in
  let mp4Files := mp4FilesOf allFiles in
  st1 <- forOf vttStep vttFiles ([], []) ;;
  st2 <- forOf (mp4Step vttFiles) mp4Files st1 ;;
  forOf textStep allFiles (fst st2).

(** index.ts 659-808 *)
Definition fetchSharePointTranscripts : M (list TranscriptFile) :=
  allFiles <- (fun n => (folderFiles w n, S n)) ;;
  scan allFiles.

(** ** The [fetch] action of the handler *)

(** The JSON body of the 200 response. *)
Record FetchSummary : Type := mkSummary {
  count : nat;
  total : nat;
  transcripts : list Row;
  errors : option (list ErrorEntry)
}.

Inductive response : Type :=
| Ok200 (body : FetchSummary)
| Status400 (message : string).

(** index.ts 153-188: one round of the loop over [transcripts]. *)
Definition storeStep (st : list Row * list ErrorEntry) (transcript : TranscriptFile)
    : M (list Row * list ErrorEntry) :=
  let '(storedTranscripts, errors) := st in
  tryCatch
    (r <- (fun n => (upsert w n transcript, S n)) ;;
     match upsertError r with
     | Some message =>
         ret (storedTranscripts, errors ++ [mkError (t_name transcript) message])
     | None =>
         match data r with
         | Some d => ret (storedTranscripts ++ [d], errors)
         | None => ret st
         end
     end)
    (fun err => ret (storedTranscripts, errors ++ [mkError (t_name transcript) err])).

(** index.ts 144-211, inside the [try] of 74-317. *)
Definition fetchAction : M response :=
  tryCatch
    (transcripts <- fetchSharePointTranscripts ;;
     st <- forOf storeStep transcripts ([], []) ;;
     let '(storedTranscripts, errors) := st in
     ret (Ok200 {| count := length storedTranscripts;
                   total := length transcripts;
                   transcripts := storedTranscripts;
                   errors := match errors with [] => None | _ => Some errors end |}))
    (fun e => ret (Status400 e)).

End Scan.

(** ** The row the handler stores *)

(** [[^/.]] *)
Definition not_slash_dot (c : ascii) : bool :=
  negb (Ascii.eqb c "/") && negb (Ascii.eqb c ".").

Fixpoint all_chars (p : ascii -> bool) (s : string) : bool :=
  match s with
  | EmptyString => true
  | String c s' => p c && all_chars p s'
  end.

(** [/\.[^/.]+$/] matches [s] from its first character up to its end. *)
Definition match_extension (s : string) : bool :=
  match s with
  | String c (String d r) => Ascii.eqb c "." && all_chars not_slash_dot (String d r)
  | _ => false
  end.

(** [name.replace(/\.[^/.]+$/, "")] (index.ts 97 and 160). *)
Fixpoint titleOf (s : string) : string :=
  if match_extension s then EmptyString
  else match s with
       | EmptyString => EmptyString
       | String c s' => String c (titleOf s')
       end.

(** [x || null] on an optional string: the empty string is falsy too. *)
Definition orNull (x : option string) : option string :=
  match x with
  | Some EmptyString => None
  | _ => x
  end.

Module Payload.

(** The object passed to [upsert] (index.ts 96-103 and 159-166);
    [meeting_date] is the text [new Date] is given. *)
Record t : Type := mk {
  title : string;
  sharepoint_url : string;
  content : string;
  file_name : string;
  meeting_date : string;
  video_url : option string;
  video_file_name : option string
}.

End Payload.

Definition upsertPayload (transcript : TranscriptFile) : Payload.t :=
  {| Payload.title := titleOf (t_name transcript);
     Payload.sharepoint_url := url transcript;
     Payload.content := content transcript;
     Payload.file_name := t_name transcript;
     Payload.meeting_date := lastModified transcript;
     Payload.video_url := orNull (videoUrl transcript);
     Payload.video_file_name := orNull (videoFileName transcript) |}.

(** ** The OneDrive recordings *)

(** An awaited [fetch] whose status the code reads: [Failed e] when the
    [fetch] or the [json()] of an ok response throws, [NotOk status] with
    the status as the template prints it, [Okay a] with what is read from
    the JSON of an ok response. *)
Inductive answer (A : Type) : Type :=
| Failed (e : string)
| NotOk (status : string)
| Okay (a : A).
Arguments Failed {A} e.
Arguments NotOk {A} status.
Arguments Okay {A} a.

(** [const r = await fetch(url)] where the code looks at [r.ok] and
    [r.status] itself. *)
Definition fetchAnswer {A} (call : nat -> answer A) : M (string + A) :=
  fun n =>
    match call n with
    | Failed e => (Thrown e, S n)
    | NotOk status => (Ret (inl status), S n)
    | Okay a => (Ret (inr a), S n)
    end.

(** The requests of [fetchOneDriveRecordings], each taking the number of
    calls awaited so far:
    - [accessToken]: index.ts 320-346, the token or what is thrown;
    - [approot]: GET [/me/drive/special/approot:/Recordings]; the body is
      [folderData.id] as the template prints it;
    - [searchRecordings]: GET [/me/drive/root/search(q='Recordings')]; the
      body is [value];
    - [driveChildren i]: GET [/me/drive/items/i/children]; the body is
      [value]. *)
Record OneDrive : Type := mkOneDrive {
  accessToken : nat -> outcome string;
  approot : nat -> answer string;
  searchRecordings : nat -> answer (option (list DriveItem));
  driveChildren : nat -> string -> answer (option (list DriveItem))
}.

Section Recordings.

Variable w : World.
Variable d : OneDrive.

(** index.ts 1051-1070: one round of the loop of [processVTTFiles]. *)
Definition vttOnlyStep (transcripts : list TranscriptFile) (file : DriveItem)
    : M (list TranscriptFile) :=
  if isFile file && endsWith (name file) ".vtt" then
    tryCatch
      (content <- fetchText w (downloadUrl file) ;;
       ret (transcripts ++ [transcriptOf file content None None]))
      (fun _ => ret transcripts)
  else ret transcripts.

(** index.ts 1048-1073 *)
Definition processVTTFiles (files : list DriveItem) : M (list TranscriptFile) :=
  forOf vttOnlyStep files [].

(** [processVTTFiles(filesData.value, accessToken)]: the loop throws on a
    [value] that is absent. *)
Definition processValue (value : option (list DriveItem)) : M (list TranscriptFile) :=
  match value with
  | Some files => processVTTFiles files
  | None => throw "files is not iterable"
  end.

(** The predicate of the [find] of index.ts 1003-1005. *)
Definition recordingsFolderNamed (item : DriveItem) : bool :=
  isFolder item && (name item =? "Recordings").

(** index.ts 994-1020: the search for a folder [Recordings]; [None] when
    the code falls through to the [throw] of 1022. *)
Definition searchForRecordings : M (option (list TranscriptFile)) :=
  searchResponse <- fetchAnswer (searchRecordings d) ;;
  match searchResponse with
  | inr value =>
      match value with
      | None => throw "Cannot read properties of undefined (reading 'find')"
      | Some items =>
          match find recordingsFolderNamed items with
          | Some recordingsFolder =>
              filesResponse <- fetchAnswer
                                 (fun n => driveChildren d n (id recordingsFolder)) ;;
              match filesResponse with
              | inr filesValue =>
                  transcripts <- processValue filesValue ;;
                  ret (Some transcripts)
              | inl _ => ret None
              end
          | None => ret None
          end
      end
  | inl _ => ret None
  end.

(** index.ts 974-1046 *)
Definition fetchOneDriveRecordings : M (list TranscriptFile) :=
  (fun n => (accessToken d n, S n)) ;;;
  tryCatch
    (folderResponse <- fetchAnswer (approot d) ;;
     match folderResponse with
     | inl _ =>
         r <- searchForRecordings ;;
         match r with
         | Some transcripts => ret transcripts
         | None => throw "Could not find Recordings folder in OneDrive"
         end
     | inr folderId =>
         filesResponse <- fetchAnswer (fun n => driveChildren d n folderId) ;;
         match filesResponse with
         | inl status =>
             throw ("Failed to fetch files from Recordings folder: " ++ status)%string
         | inr filesValue => processValue filesValue
         end
     end)
    (fun error => throw error).

(** index.ts 86-142: the [fetch-from-recordings] action, inside the [try]
    of 74-317; its loop is the one of the [fetch] action. *)
Definition fetchFromRecordingsAction : M response :=
  tryCatch
    (transcripts <- fetchOneDriveRecordings ;;
     st <- forOf (storeStep w) transcripts ([], []) ;;
     let '(storedTranscripts, errors) := st in
     ret (Ok200 {| count := length storedTranscripts;
                   total := length transcripts;
                   transcripts := storedTranscripts;
                   errors := match errors with [] => None | _ => Some errors end |}))
    (fun e => ret (Status400 e)).

End Recordings.

(** ** The diagnostics listings *)

(** [xs.pop()] on the array [split] has just built: its last element. *)
Definition pop (xs : list string) : string := last xs EmptyString.

(** [item.name.includes('.') ? item.name.split('.').pop() : ''] (index.ts 863) *)
Definition extensionOf (name : string) : string :=
  if includes name "." then pop (split "." name) else EmptyString.

(** An item of a folder listing as [listFilesInFolder] reads it: the
    fields of a [DriveItem], [size], and [file?.mimeType]. *)
Record ListedItem : Type := mkListed {
  item : DriveItem;
  size : nat;
  mimeType : option string
}.

Module FileInfo.

(** The object pushed at index.ts 856-865. *)
Record t : Type := mk {
  name : string;
  isFile : bool;
  isFolder : bool;
  size : nat;
  lastModified : string;
  webUrl : string;
  extension : string;
  mimeType : string
}.

End FileInfo.

(** index.ts 856-865; [x || 'N/A'] takes the empty string for absent. *)
Definition fileInfoOf (i : ListedItem) : FileInfo.t :=
  {| FileInfo.name := name (item i);
     FileInfo.isFile := isFile (item i);
     FileInfo.isFolder := isFolder (item i);
     FileInfo.size := size i;
     FileInfo.lastModified := lastModifiedDateTime (item i);
     FileInfo.webUrl := webUrl (item i);
     FileInfo.extension := extensionOf (name (item i));
     FileInfo.mimeType := match orNull (mimeType i) with
                          | Some m => m
                          | None => "N/A"
                          end |}.

(** A document library of the site: [drive.id] and [drive.name]. *)
Record Drive : Type := mkDrive {
  drive_id : string;
  drive_name : string
}.

(** An entry of the list of folders (index.ts 930-935 and 951-956);
    [folder_name] and [folder_webUrl] are its fields [name] and [webUrl]. *)
Record FolderEntry : Type := mkFolder {
  folder_name : string;
  path : string;
  libraryName : string;
  folder_webUrl : string
}.

(** The requests of the two listings, each taking the number of calls
    awaited so far:
    - [siteToken]: index.ts 320-346, the token or what is thrown;
    - [site]: the parsing of [config.siteUrl] and the GET of the site; the
      body is [siteData.id];
    - [errorText]: [await response.text()] on a response that is not ok;
    - [folderListing]: GET [/drive/root:folderPath:/children]; the body is
      [value];
    - [drives]: GET [/sites/id/drives]; the body is [value];
    - [rootChildren i]: GET [/drives/i/root/children];
    - [folderChildren i j]: GET [/drives/i/items/j/children]. *)
Record Library : Type := mkLibrary {
  siteToken : nat -> outcome string;
  site : nat -> answer string;
  errorText : nat -> outcome string;
  folderListing : nat -> answer (option (list ListedItem));
  drives : nat -> answer (option (list Drive));
  rootChildren : nat -> string -> reply (option (list DriveItem));
  folderChildren : nat -> string -> string -> reply (option (list DriveItem))
}.

Section Listings.

Variable l : Library.

(** [await getSharePointAccessToken(config)] *)
Definition getToken : M string := fun n => (siteToken l n, S n).

(** [const errorData = await response.text()] *)
Definition readErrorText : M string := fun n => (errorText l n, S n).

(** index.ts 810-869 *)
Definition listFilesInFolder : M (list FileInfo.t) :=
  getToken ;;;
  siteResponse <- fetchAnswer (site l) ;;
  match siteResponse with
  | inl status =>
      readErrorText ;;;
      throw ("Failed to get SharePoint site information: " ++ status)%string
  | inr siteId =>
      filesResponse <- fetchAnswer (folderListing l) ;;
      match filesResponse with
      | inl status =>
          errorData <- readErrorText ;;
          throw ("Failed to fetch files from folder: " ++ status ++ " - " ++ errorData)%string
      | inr None => throw "filesData.value is not iterable"
      | inr (Some value) => ret (map fileInfoOf value)
      end
  end.

(** index.ts 930-935 *)
Definition topEntry (drive : Drive) (i : DriveItem) : FolderEntry :=
  {| folder_name := name i;
     path := ("/" ++ name i)%string;
     libraryName := drive_name drive;
     folder_webUrl := webUrl i |}.

(** index.ts 951-956 *)
Definition subEntry (drive : Drive) (i subItem : DriveItem) : FolderEntry :=
  {| folder_name := name subItem;
     path := ("/" ++ name i ++ "/" ++ name subItem)%string;
     libraryName := drive_name drive;
     folder_webUrl := webUrl subItem |}.

(** index.ts 937-962: the folders inside a folder of the root; the [catch]
    is reached before anything is pushed. *)
Definition subFolders (drive : Drive) (i : DriveItem) (folders : list FolderEntry)
    : M (list FolderEntry) :=
  tryCatch
    (subFoldersData <- fetchOk (fun n => folderChildren l n (drive_id drive) (id i)) ;;
     match subFoldersData with
     | Some (Some value) => ret (folders ++ map (subEntry drive i) (filter isFolder value))
     | Some None => throw "subFoldersData.value is not iterable"
     | None => ret folders
     end)
    (fun _ => ret folders).

(** index.ts 928-964: one round of the loop over the items of a root. *)
Definition rootItemStep (drive : Drive) (folders : list FolderEntry) (i : DriveItem)
    : M (list FolderEntry) :=
  if isFolder i then subFolders drive i (folders ++ [topEntry drive i])
  else ret folders.

(** index.ts 914-969: one round of the loop over the drives; the [catch]
    is reached before anything is pushed. *)
Definition driveStep (folders : list FolderEntry) (drive : Drive) : M (list FolderEntry) :=
  tryCatch
    (rootData <- fetchOk (fun n => rootChildren l n (drive_id drive)) ;;
     match rootData with
     | Some (Some value) => forOf (rootItemStep drive) value folders
     | Some None => throw "rootData.value is not iterable"
     | None => ret folders
     end)
    (fun _ => ret folders).

(** index.ts 871-972 *)
Definition listSharePointFolders : M (list FolderEntry) :=
  getToken ;;;
  siteResponse <- fetchAnswer (site l) ;;
  match siteResponse with
  | inl status =>
      readErrorText ;;;
      throw ("Failed to get SharePoint site information: " ++ status
             ++ " - Check that your Site URL is correct")%string
  | inr siteId =>
      drivesResponse <- fetchAnswer (drives l) ;;
      match drivesResponse with
      | inl _ => throw "Failed to fetch document libraries"
      | inr None => throw "drivesData.value is not iterable"
      | inr (Some value) => forOf driveStep value []
      end
  end.

End Listings.

(** ** Concrete folders and services, for the examples below *)

Module Scenario.

Definition recording : DriveItem :=
  {| id := "rec-1";
     name := "Weekly Sync_240115UTC-Meeting Recording.mp4";
     isFile := true; isFolder := false;
     webUrl := "https://contoso.sharepoint.com/Recordings/Weekly%20Sync_240115UTC-Meeting%20Recording.mp4";
     lastModifiedDateTime := "2024-01-15T10:00:00Z";
     downloadUrl := Some "https://dl.example/rec-1" |}.

(** A file of the folder with the given id and name. *)
Definition fileNamed (i n : string) : DriveItem :=
  {| id := i; name := n; isFile := true; isFolder := false;
     webUrl := ("https://contoso.sharepoint.com/Recordings/" ++ n)%string;
     lastModifiedDateTime := "2024-01-15T11:00:00Z";
     downloadUrl := Some ("https://dl.example/" ++ i)%string |}.

Definition notes : DriveItem := fileNamed "txt-1" "Notes.txt".

Definition stored (t : TranscriptFile) : UpsertReply :=
  {| data := Some {| row_id := "row"; file_name := t_name t |};
     upsertError := None |}.

(** Every download succeeds, every upsert stores, every Graph lookup
    answers with a non-ok status. *)
Definition quiet (listing : list DriveItem) : World :=
  {| children := fun _ _ => HttpErr;
     driveItem := fun _ _ => HttpErr;
     probed := fun _ _ _ => HttpErr;
     search := fun _ _ => HttpErr;
     download := fun _ u =>
       match u with
       | Some u => Ret ("WEBVTT " ++ u)%string
       | None => Thrown "TypeError: Failed to parse URL"
       end;
     folderFiles := fun _ => Ret listing;
     upsert := fun _ t => Ret (stored t) |}.

(** The folder of the spec's scenario: one recording, one transcript. *)
Definition weekly : list DriveItem := [recording; fileNamed "vtt-1" "Weekly Sync.vtt"].

(** A folder whose transcript carries the [-transcript] suffix; the
    recording has no children and its parent folder lists the same two
    files. *)
Definition suffixed : list DriveItem :=
  [recording; fileNamed "vtt-2" "Weekly Sync-transcript.vtt"].

Definition suffixedWorld : World :=
  {| children := fun _ i =>
       if i =? "rec-1" then Body (Some [])
       else if i =? "folder-1" then Body (Some suffixed)
       else HttpErr;
     driveItem := fun _ i => if i =? "rec-1" then Body (Some "folder-1") else HttpErr;
     probed := fun _ _ _ => Body tt;
     search := fun _ _ => Body (Some []);
     download := download (quiet suffixed);
     folderFiles := fun _ => Ret suffixed;
     upsert := fun _ t => Ret (stored t) |}.

(** A folder with one text file whose download fails. *)
Definition offline : World :=
  {| children := fun _ _ => HttpErr;
     driveItem := fun _ _ => HttpErr;
     probed := fun _ _ _ => HttpErr;
     search := fun _ _ => HttpErr;
     download := fun _ _ => Thrown "TypeError: fetch failed";
     folderFiles := fun _ => Ret [notes];
     upsert := fun _ t => Ret (stored t) |}.

(** A folder with the recording alone: every lookup answers, none has a
    transcript. *)
Definition lonely : World :=
  {| children := fun _ i =>
       if i =? "folder-1" then Body (Some [recording]) else Body (Some []);
     driveItem := fun _ _ => Body (Some "folder-1");
     probed := fun _ _ _ => Body tt;
     search := fun _ _ => Body (Some []);
     download := download (quiet [recording]);
     folderFiles := fun _ => Ret [recording];
     upsert := fun _ t => Ret (stored t) |}.


(** The parent folder holds a folder named after the recording, and in it
    two files, the second a transcript under a name of its own. *)
Definition subfolder : DriveItem :=
  {| id := "sub-1"; name := "Weekly Sync"; isFile := false; isFolder := true;
     webUrl := "https://contoso.sharepoint.com/Recordings/Weekly%20Sync";
     lastModifiedDateTime := "2024-01-15T10:30:00Z";
     downloadUrl := None |}.

Definition zzz : DriveItem := fileNamed "vtt-9" "zzz.vtt".

Definition nested : World :=
  {| children := fun _ i =>
       if i =? "folder-1" then Body (Some [recording; subfolder])
       else if i =? "sub-1" then Body (Some [fileNamed "doc-1" "agenda.docx"; zzz])
       else Body (Some []);
     driveItem := fun _ _ => Body (Some "folder-1");
     probed := fun _ _ _ => Body tt;
     search := fun _ _ => Body (Some []);
     download := download (quiet [recording]);
     folderFiles := fun _ => Ret [recording];
     upsert := fun _ t => Ret (stored t) |}.

End Scenario.

(** ** More folders and services, for the examples of the further
    properties *)

Module Example.

Import Scenario.

Definition folder (i n : string) : DriveItem :=
  {| id := i; name := n; isFile := false; isFolder := true;
     webUrl := ("https://contoso.sharepoint.com/Recordings/" ++ n)%string;
     lastModifiedDateTime := "2024-01-15T09:00:00Z";
     downloadUrl := None |}.

(** Every strategy is tried and comes up empty until the last search
    query, which finds a transcript. *)
Definition thorough : World :=
  {| children := fun _ i =>
       if i =? "folder-1"
       then Body (Some [recording; folder "sub-1" "Weekly Sync";
                        folder "tr-1" "Transcripts"])
       else Body (Some []);
     driveItem := fun _ _ => Body (Some "folder-1");
     probed := fun _ _ _ => Body tt;
     search := fun _ q =>
       if q =? "Weekly Sync" then Body (Some [fileNamed "vtt-1" "Weekly Sync.vtt"])
       else Body (Some []);
     download := download (quiet [recording]);
     folderFiles := fun _ => Ret [recording];
     upsert := fun _ t => Ret (stored t) |}.

(** The recording has its transcript as a child; nothing else answers. *)
Definition streamed : World :=
  {| children := fun _ i =>
       if i =? "rec-1" then Body (Some [fileNamed "vtt-1" "Weekly Sync.vtt"])
       else NetErr "TypeError: fetch failed";
     driveItem := fun _ _ => NetErr "TypeError: fetch failed";
     probed := fun _ _ _ => NetErr "TypeError: fetch failed";
     search := fun _ _ => NetErr "TypeError: fetch failed";
     download := download (quiet [recording]);
     folderFiles := fun _ => Ret [recording];
     upsert := fun _ t => Ret (stored t) |}.

(** A folder with a transcript, a text file, a document and a picture;
    the text file cannot be downloaded. *)
Definition mixed : list DriveItem :=
  [fileNamed "vtt-1" "Weekly Sync.vtt"; fileNamed "txt-1" "Notes.txt";
   fileNamed "doc-1" "agenda.docx"; fileNamed "png-1" "board.png"].

Definition mixedWorld : World :=
  {| children := fun _ _ => HttpErr;
     driveItem := fun _ _ => HttpErr;
     probed := fun _ _ _ => HttpErr;
     search := fun _ _ => HttpErr;
     download := fun _ u =>
       match u with
       | Some u => if u =? "https://dl.example/txt-1"
                   then Thrown "TypeError: fetch failed"
                   else Ret ("TEXT " ++ u)%string
       | None => Thrown "TypeError: Failed to parse URL"
       end;
     folderFiles := fun _ => Ret mixed;
     upsert := fun _ t => Ret (stored t) |}.

(** Every store fails: one with an error of the database, the others by
    throwing. *)
Definition failingStore : World :=
  {| children := fun _ _ => HttpErr;
     driveItem := fun _ _ => HttpErr;
     probed := fun _ _ _ => HttpErr;
     search := fun _ _ => HttpErr;
     download := download (quiet mixed);
     folderFiles := fun _ => Ret mixed;
     upsert := fun _ t =>
       if t_name t =? "Notes.txt"
       then Ret {| data := None; upsertError := Some "duplicate key" |}
       else Thrown "TypeError: fetch failed" |}.

(** A OneDrive without the special folder, where the search finds a file
    called Recordings and a folder called recordings. *)
Definition noRecordings : OneDrive :=
  {| accessToken := fun _ => Ret "token";
     approot := fun _ => NotOk "404";
     searchRecordings := fun _ =>
       Okay (Some [fileNamed "f-1" "Recordings"; folder "d-1" "recordings"]);
     driveChildren := fun _ _ => Okay (Some mixed) |}.

(** A OneDrive whose special folder holds the files of [mixed]. *)
Definition withRecordings : OneDrive :=
  {| accessToken := fun _ => Ret "token";
     approot := fun _ => Okay "d-1";
     searchRecordings := fun _ => NotOk "500";
     driveChildren := fun _ i => if i =? "d-1" then Okay (Some mixed) else NotOk "404" |}.

(** A site with two libraries: the listing of the first fails; the second
    holds a folder with two folders in it, a file, and a folder whose
    listing fails. *)
Definition twoLibraries : Library :=
  {| siteToken := fun _ => Ret "token";
     site := fun _ => Okay "site-1";
     errorText := fun _ => Ret "not found";
     folderListing := fun _ => NotOk "404";
     drives := fun _ =>
       Okay (Some [mkDrive "drv-1" "Archive"; mkDrive "drv-2" "Documents"]);
     rootChildren := fun _ i =>
       if i =? "drv-2"
       then Body (Some [folder "a" "Meetings"; fileNamed "f" "readme.txt";
                        folder "b" "Private"])
       else NetErr "TypeError: fetch failed";
     folderChildren := fun _ _ j =>
       if j =? "a"
       then Body (Some [folder "a1" "2024"; fileNamed "f2" "x.vtt"; folder "a2" "2025"])
       else HttpErr |}.

(** The same site with a folder to list: a transcript, a recording and a
    folder. *)
Definition listed : list ListedItem :=
  [mkListed (fileNamed "vtt-1" "Weekly Sync.vtt") 2048 (Some "text/vtt");
   mkListed recording 1024 (Some "video/mp4");
   mkListed (folder "a" "Meetings.vtt") 0 None].

Definition diagnostics : Library :=
  {| siteToken := fun _ => Ret "token";
     site := fun _ => Okay "site-1";
     errorText := fun _ => Ret "not found";
     folderListing := fun _ => Okay (Some listed);
     drives := drives twoLibraries;
     rootChildren := rootChildren twoLibraries;
     folderChildren := folderChildren twoLibraries |}.

End Example.

(** ** Vocabulary of the properties *)

(** [safe m]: whatever the call counter, [m] comes back with a value. *)
Definition safe {A} (m : M A) : Prop :=
  forall n, exists a n', m n = (Ret a, n').

(** [post m Q]: every value [m] comes back with satisfies [Q]. *)
Definition post {A} (m : M A) (Q : A -> Prop) : Prop :=
  forall n a n', m n = (Ret a, n') -> Q a.

(** The shape of the postconditions of code that looks for a transcript. *)
Definition found (P : TranscriptFile -> Prop) (r : option TranscriptFile) : Prop :=
  match r with
  | Some t => P t
  | None => True
  end.

(** [t] holds the text of a download that succeeded, for a file of its
    name and URL. *)
Definition downloaded (w : World) (t : TranscriptFile) : Prop :=
  exists (k : nat) (f : DriveItem),
    download w k (downloadUrl f) = Ret (content t) /\
    t_name t = name f /\ url t = webUrl f.

(** What the resolver promises of a transcript it returns for the
    recording [fileName]. *)
Definition lookedUp (w : World) (fileName : string) (video : option string)
    (t : TranscriptFile) : Prop :=
  downloaded w t /\ videoFileName t = Some fileName /\ videoUrl t = video.

(** The four places of the scan that push a transcript. *)
Inductive origin (w : World) (allFiles : list DriveItem) (t : TranscriptFile) : Prop :=
| standalone (f : DriveItem) (k : nat) (c : string) :
    In f (vttFilesOf allFiles) ->
    download w k (downloadUrl f) = Ret c ->
    t = transcriptOf f c None None ->
    origin w allFiles t
| attached (mp4 f : DriveItem) (k : nat) (c : string) :
    In mp4 (mp4FilesOf allFiles) ->
    In f (vttFilesOf allFiles) ->
    name f = possibleVttName (name mp4) ->
    download w k (downloadUrl f) = Ret c ->
    t = transcriptOf f c (Some (webUrl mp4)) (Some (name mp4)) ->
    origin w allFiles t
| resolved (mp4 : DriveItem) (k k' : nat) :
    In mp4 (mp4FilesOf allFiles) ->
    tryFetchTranscriptFromDriveItem w (id mp4) (name mp4) (Some (webUrl mp4)) k
    = (Ret (Some t), k') ->
    origin w allFiles t
| textual (f : DriveItem) (k : nat) (c : string) :
    In f allFiles ->
    isTextFile f = true ->
    download w k (downloadUrl f) = Ret c ->
    t = transcriptOf f c None None ->
    origin w allFiles t.

(** [g] is an item of a listing the services have answered: a child of
    some item, or a result of some search. *)
Definition listedBy (w : World) (g : DriveItem) : Prop :=
  (exists k i value, children w k i = Body value /\ In g (orEmpty value)) \/
  (exists k q value, search w k q = Body value /\ In g (orEmpty value)).

(** The items the scan of [allFiles] can take a transcript from: those of
    the folder, and those its lookups were answered with. *)
Definition met (w : World) (allFiles : list DriveItem) (g : DriveItem) : Prop :=
  In g allFiles \/ listedBy w g.

(** [t] is the record of the item [g]: its name, URL and date, with the
    text that a download of [g] itself came back with. *)
Definition builtFrom (w : World) (g : DriveItem) (t : TranscriptFile) : Prop :=
  exists k c,
    download w k (downloadUrl g) = Ret c /\
    t = transcriptOf g c (videoUrl t) (videoFileName t).

(** The download of [f] fails whenever it is asked for. *)
Definition neverDownloads (w : World) (f : DriveItem) : Prop :=
  forall k, exists e, download w k (downloadUrl f) = Thrown e.

(** The entries of [errors] in the response; none when it is [undefined]. *)
Definition reported (body : FetchSummary) : list ErrorEntry :=
  match errors body with
  | Some es => es
  | None => []
  end.

(** Every transcript of the list was pushed at one of the four places. *)
Definition traced (w : World) (allFiles : list DriveItem)
    (ts : list TranscriptFile) : Prop :=
  Forall (origin w allFiles) ts.

(** The standalone transcript of [f] with text [c] is in the list. *)
Definition keeps (f : DriveItem) (c : string) (ts : list TranscriptFile) : Prop :=
  In (transcriptOf f c None None) ts.

(** The list of transcripts only ever grows at its end. *)
Definition grows (ts ts' : list TranscriptFile) : Prop :=
  exists l, ts' = ts ++ l.

(** The answer to a download does not depend on when it is asked. *)
Definition stable (w : World) : Prop :=
  forall k u, download w k u = download w 0 u.

(** The standalone transcript of [f] when its download succeeds. *)
Definition recordIfDownloaded (w : World) (f : DriveItem) : list TranscriptFile :=
  match download w 0 (downloadUrl f) with
  | Ret c => [transcriptOf f c None None]
  | Thrown _ => []
  end.

(** [m] makes at most [k] external calls, and the counter never goes back. *)
Definition within {A} (k : nat) (m : M A) : Prop :=
  forall n, n <= snd (m n) /\ snd (m n) <= n + k.

(** [m] makes at most [a] calls when it falls through with [None] and at
    most [b] when it returns a value or throws. *)
Definition spends {A} (a b : nat) (m : M (option A)) : Prop :=
  forall n,
    n <= snd (m n) /\
    match fst (m n) with
    | Ret None => snd (m n) <= n + a
    | _ => snd (m n) <= n + b
    end.

(** The three endings of the names the scan returns. *)
Definition knownExtension (n : string) : Prop :=
  endsWith n ".vtt" = true \/ endsWith n ".txt" = true \/ endsWith n ".docx" = true.

(** [t] names a recording. *)
Definition hasVideo (t : TranscriptFile) : bool :=
  match videoFileName t with
  | Some _ => true
  | None => false
  end.

(** [t] was built from a file ending in [.vtt] whose download succeeded,
    for the recording [fileName]. *)
Definition fromVttFile (w : World) (fileName : string) (video : option string)
    (t : TranscriptFile) : Prop :=
  exists f k c,
    isVttFile f = true /\
    download w k (downloadUrl f) = Ret c /\
    t = transcriptOf f c video (Some fileName).

(** What [processVTTFiles] promises of each transcript. *)
Definition standaloneVtt (w : World) (t : TranscriptFile) : Prop :=
  endsWith (t_name t) ".vtt" = true /\
  videoFileName t = None /\ videoUrl t = None /\
  downloaded w t.

(** Every entry is a folder of a root, or a folder inside an entry of the
    list that is a folder of the root of the same library. *)
Definition wellRooted (folders : list FolderEntry) : Prop :=
  forall e, In e folders ->
    path e = ("/" ++ folder_name e)%string \/
    exists parent,
      In parent folders /\
      path parent = ("/" ++ folder_name parent)%string /\
      libraryName parent = libraryName e /\
      path e = (path parent ++ "/" ++ folder_name e)%string.

(** The test of the diagnostics listing for a file with the extension [x]. *)
Definition listedAs (x : string) (e : FileInfo.t) : bool :=
  FileInfo.isFile e && (FileInfo.extension e =? x).

(** The folder [i] of the root of [drive] is in the list, and so are the
    folders inside it when its own listing answers. *)
Definition shown (l : Library) (drive : Drive) (i : DriveItem)
    (fs : list FolderEntry) : Prop :=
  In (topEntry drive i) fs /\
  forall subs sub,
    (forall k, folderChildren l k (drive_id drive) (id i) = Body (Some subs)) ->
    In sub subs -> isFolder sub = true ->
    In (subEntry drive i sub) fs.

(** What the loop over the recordings keeps once the VTT [f] was
    returned: its name is processed and no transcript names the recording
    [v]. *)
Definition skipped (f : DriveItem) (v : string) (st : ScanState) : Prop :=
  has (snd st) (name f) = true /\
  forall t, In t (fst st) -> videoFileName t <> Some v.

(** * Properties *)

(** ** Strings and patterns *)

Section StringFacts.

Lemma append_assoc (a b c : string) : ((a ++ b) ++ c = a ++ (b ++ c))%string.
Proof. induction a as [|x a IH]; simpl; [reflexivity | now rewrite IH]. Qed.

Lemma length_append (a b : string) :
  String.length (a ++ b) = String.length a + String.length b.
Proof. induction a as [|x a IH]; simpl; [reflexivity | now rewrite IH]. Qed.

Lemma startsWith_nil (s : string) : startsWith s "" = true.
Proof. destruct s; reflexivity. Qed.

Lemma startsWith_cons (c d : ascii) (s p : string) :
  startsWith (String c s) (String d p) = Ascii.eqb d c && startsWith s p.
Proof.
  unfold startsWith; simpl.
  destruct (ascii_dec d c) as [->|ne].
  - now rewrite Ascii.eqb_refl.
  - destruct (Ascii.eqb_spec d c); [contradiction | reflexivity].
Qed.

Lemma startsWith_append (p r : string) : startsWith (p ++ r) p = true.
Proof.
  induction p as [|c p IH]; simpl append.
  - apply startsWith_nil.
  - now rewrite startsWith_cons, Ascii.eqb_refl.
Qed.

Lemma startsWith_trans (s b t : string) :
  startsWith s b = true -> startsWith b t = true -> startsWith s t = true.
Proof.
  revert s b; induction t as [|c t IH]; intros s b Hsb Hbt.
  - apply startsWith_nil.
  - destruct b as [|d b]; [discriminate|].
    destruct s as [|e s]; [discriminate|].
    rewrite startsWith_cons in *.
    apply andb_true_iff in Hsb as [Hde Hsb].
    apply andb_true_iff in Hbt as [Hcd Hbt].
    apply Ascii.eqb_eq in Hde; apply Ascii.eqb_eq in Hcd; subst.
    rewrite Ascii.eqb_refl; simpl; eauto.
Qed.

Lemma includes_unfold (s sub : string) :
  includes s sub =
  startsWith s sub || match s with
                      | EmptyString => false
                      | String _ s' => includes s' sub
                      end.
Proof. destruct s; reflexivity. Qed.

Lemma startsWith_includes (s p : string) :
  startsWith s p = true -> includes s p = true.
Proof. intros H; rewrite includes_unfold, H; reflexivity. Qed.

Lemma includes_nil (s : string) : includes s "" = true.
Proof. apply startsWith_includes, startsWith_nil. Qed.

Lemma endsWith_unfold (s suf : string) :
  endsWith s suf =
  (s =? suf)%string || match s with
                       | EmptyString => false
                       | String _ s' => endsWith s' suf
                       end.
Proof. destruct s; reflexivity. Qed.

Lemma endsWith_append (x suf : string) : endsWith (x ++ suf) suf = true.
Proof.
  induction x as [|c x IH]; simpl append.
  - rewrite endsWith_unfold, String.eqb_refl; reflexivity.
  - rewrite endsWith_unfold, IH; apply orb_true_r.
Qed.

Lemma firstToken_nil : firstToken "" = "".
Proof. reflexivity. Qed.

Lemma firstToken_cons (c : ascii) (s : string) :
  firstToken (String c s) =
  if Ascii.eqb c "-" then "" else String c (firstToken s).
Proof.
  unfold firstToken, index0; simpl.
  destruct (Ascii.eqb c "-"); [reflexivity|].
  destruct (split "-" s) eqn:E; [|reflexivity].
  destruct s; simpl in E; [discriminate|].
  destruct (Ascii.eqb a "-"); [discriminate|].
  destruct (split "-" s); discriminate.
Qed.

Lemma firstToken_prefix (b : string) : startsWith b (firstToken b) = true.
Proof.
  induction b as [|c b IH].
  - reflexivity.
  - rewrite firstToken_cons.
    destruct (Ascii.eqb c "-"); [apply startsWith_nil|]; cbv iota.
    now rewrite startsWith_cons, Ascii.eqb_refl.
Qed.

(** The first token is empty exactly for the empty name and for names
    that begin with a hyphen. *)
Lemma firstToken_empty_iff (b : string) :
  firstToken b = "" <-> b = "" \/ startsWith b "-" = true.
Proof.
  destruct b as [|c b].
  - split; auto.
  - rewrite firstToken_cons, startsWith_cons, startsWith_nil, andb_true_r.
    rewrite (Ascii.eqb_sym "-" c).
    destruct (Ascii.eqb c "-"); split; auto; try discriminate.
    intros [H|H]; discriminate.
Qed.

Lemma match_to_end_length (p : list atom) (s : string) :
  match_to_end p s = true -> String.length s = List.length p.
Proof.
  revert s; induction p as [|a p IH]; intros [|c s] H; simpl in *;
    try discriminate; try reflexivity.
  apply andb_true_iff in H as [_ H]. now rewrite (IH _ H).
Qed.

Lemma match_to_end_short (p : list atom) (s : string) :
  String.length s <> List.length p -> match_to_end p s = false.
Proof.
  intros H; destruct (match_to_end p s) eqn:E; [|reflexivity].
  now apply match_to_end_length in E.
Qed.

Lemma test_unfold (p : list atom) (s : string) :
  test p s =
  match_to_end p s || match s with
                      | EmptyString => false
                      | String _ s' => test p s'
                      end.
Proof. destruct s; reflexivity. Qed.

Lemma test_short (p : list atom) (s : string) :
  String.length s < List.length p -> test p s = false.
Proof.
  induction s as [|c s IH]; intros H; rewrite test_unfold.
  - rewrite match_to_end_short by lia. reflexivity.
  - simpl in H. rewrite match_to_end_short by (simpl; lia).
    simpl. apply IH; lia.
Qed.

(** Against a tail of the right length a pattern splits in two. *)
Lemma match_to_end_split (p1 p2 : list atom) (y s2 : string) :
  String.length s2 = List.length p2 ->
  match_to_end (p1 ++ p2) (y ++ s2) = match_to_end p1 y && match_to_end p2 s2.
Proof.
  intros L; revert y; induction p1 as [|a p1 IH]; intros [|c y]; simpl app; simpl append.
  - reflexivity.
  - rewrite match_to_end_short; [reflexivity|].
    simpl; rewrite length_append; lia.
  - rewrite match_to_end_short; [reflexivity|].
    simpl; rewrite length_app; lia.
  - simpl. rewrite IH. apply andb_assoc.
Qed.

Lemma test_split (p1 p2 : list atom) (x s2 : string) :
  String.length s2 = List.length p2 ->
  test (p1 ++ p2) (x ++ s2) = test p1 x && match_to_end p2 s2.
Proof.
  intros L; induction x as [|c x IH].
  - simpl append. rewrite (test_unfold p1 ""), orb_false_r.
    rewrite <- (match_to_end_split p1 p2 "" s2 L); simpl append.
    rewrite test_unfold.
    destruct s2 as [|d s2]; [apply orb_false_r|].
    rewrite (test_short (p1 ++ p2) s2); [apply orb_false_r|].
    rewrite length_app; simpl in L; lia.
  - simpl append. rewrite (test_unfold _ (String c _)), (test_unfold p1 (String c x)).
    rewrite IH, andb_orb_distrib_l.
    now rewrite <- (match_to_end_split p1 p2 (String c x) s2 L).
Qed.

(** A name that ends in a longer pattern ends in the pattern's tail. *)
Lemma test_tail (q p : list atom) (s : string) :
  test (q ++ p) s = true -> test p s = true.
Proof.
  assert (A : forall q s, match_to_end (q ++ p) s = true -> test p s = true).
  { clear; induction q as [|a q IH]; intros s H.
    - simpl in H. rewrite test_unfold, H; reflexivity.
    - destruct s as [|c s]; [discriminate|]. simpl in H.
      apply andb_true_iff in H as [_ H].
      rewrite test_unfold, (IH _ H). apply orb_true_r. }
  induction s as [|c s IH]; rewrite test_unfold; intros H;
    apply orb_true_iff in H as [H|H]; eauto; try discriminate.
  rewrite (test_unfold p (String c s)), (IH H). apply orb_true_r.
Qed.

Lemma replace_end_unfold (p : list atom) (s : string) :
  replace_end p s =
  if match_to_end p s then ""
  else match s with
       | EmptyString => ""
       | String c s' => String c (replace_end p s')
       end.
Proof. destruct s; reflexivity. Qed.

(** [replace] removes a matching end and nothing more. *)
Lemma replace_end_app (p : list atom) (x suf : string) :
  match_to_end p suf = true -> (replace_end p (x ++ suf) = x)%string.
Proof.
  intros H; pose proof (match_to_end_length _ _ H) as L.
  induction x as [|c x IH]; simpl append; rewrite replace_end_unfold.
  - now rewrite H.
  - rewrite match_to_end_short, IH; [reflexivity|].
    simpl; rewrite length_append; lia.
Qed.

(** [replace] leaves a name without a match as it is. *)
Lemma replace_end_none (p : list atom) (s : string) :
  test p s = false -> replace_end p s = s.
Proof.
  induction s as [|c s IH]; rewrite test_unfold, replace_end_unfold; intros H;
    apply orb_false_iff in H as [H1 H2]; rewrite H1; [reflexivity|].
  now rewrite IH.
Qed.

End StringFacts.

(** ** NameNormalizer *)

Section NameNormalizer.

Lemma sixDigits_stamped (d : string) :
  sixDigits d = true ->
  match_to_end re_stamped ("_" ++ d ++ "UTC-Meeting Recording.mp4") = true.
Proof.
  intros Hd. unfold re_stamped. simpl append.
  change (match_to_end (Ch "_" :: ?p) (String "_" ?s)) with (match_to_end p s).
  rewrite match_to_end_split by reflexivity.
  unfold sixDigits in Hd. now rewrite Hd.
Qed.

Lemma not_mp4_not_recording (X : string) :
  test re_mp4 X = false -> test re_recording X = false.
Proof.
  intros H. destruct (test re_recording X) eqn:E; [|reflexivity].
  change re_recording with (re_marker ++ re_mp4) in E.
  apply test_tail in E. congruence.
Qed.

Lemma not_marker_not_stamped (X : string) :
  test re_marker X = false -> test (re_stamp ++ re_marker) X = false.
Proof.
  intros H. destruct (test (re_stamp ++ re_marker) X) eqn:E; [|reflexivity].
  apply test_tail in E. congruence.
Qed.

(** C5, as the code has it.  The three [replace] calls are chained, each
    working on the result of the one before, so the result is [X] when the
    later rules find nothing more to strip:
    - [baseName] of [X_ddddddUTC-Meeting Recording.mp4] is [X] when [X]
      does not itself end in [.mp4];
    - [baseName] of [X-Meeting Recording.mp4] is [X] when [X] ends neither
      in [.mp4] nor in [_ddddddUTC];
    - [baseName] of [X.mp4] is [X] when [X] does not end in
      [-Meeting Recording];
    all endings compared without regard to case. *)
Theorem baseName_strips_suffix (X d : string) :
  sixDigits d = true ->
  (test re_mp4 X = false ->
   baseName (X ++ "_" ++ d ++ "UTC-Meeting Recording.mp4") = X) /\
  (test re_mp4 X = false -> test re_stamp X = false ->
   baseName (X ++ "-Meeting Recording.mp4") = X) /\
  (test re_marker X = false ->
   baseName (X ++ ".mp4") = X).
Proof.
  intros Hd; unfold baseName; repeat split.
  - intros Hmp4.
    rewrite (replace_end_app re_stamped X _ (sixDigits_stamped d Hd)).
    rewrite (replace_end_none re_recording) by now apply not_mp4_not_recording.
    now apply replace_end_none.
  - intros Hmp4 Hstamp.
    rewrite (replace_end_none re_stamped).
    + rewrite (replace_end_app re_recording) by reflexivity.
      now apply replace_end_none.
    + change re_stamped with (re_stamp ++ re_recording).
      rewrite test_split by reflexivity. now rewrite Hstamp.
  - intros Hmarker.
    rewrite (replace_end_none re_stamped).
    + rewrite (replace_end_none re_recording).
      * now apply replace_end_app.
      * change re_recording with (re_marker ++ re_mp4).
        rewrite test_split by reflexivity. now rewrite Hmarker.
    + change re_stamped with ((re_stamp ++ re_marker) ++ re_mp4).
      rewrite test_split by reflexivity.
      now rewrite not_marker_not_stamped.
Qed.

Lemma baseName_strips_suffix_witness :
  sixDigits "240115" = true /\
  baseName ("Weekly Sync" ++ "_" ++ "240115" ++ "UTC-Meeting Recording.mp4") = "Weekly Sync" /\
  baseName ("Weekly Sync" ++ "-Meeting Recording.mp4") = "Weekly Sync" /\
  baseName ("Weekly Sync" ++ ".mp4") = "Weekly Sync".
Proof.
  split; [reflexivity|].
  destruct (baseName_strips_suffix "Weekly Sync" "240115" eq_refl) as (H1 & H2 & H3).
  split; [apply H1; reflexivity|].
  split; [apply H2; reflexivity | apply H3; reflexivity].
Defined.

(** C5 as stated fails: the rules do not stop at the first that strips.  A
    recording named after a file [Q3.mp4] loses that [.mp4] as well, and a
    name [X] ending in [_ddddddUTC] or in [-Meeting Recording] is cut
    further. *)
Lemma baseName_does_not_stop_at_first_rule :
  ~ (forall X d : string,
       sixDigits d = true ->
       baseName (X ++ "_" ++ d ++ "UTC-Meeting Recording.mp4") = X /\
       baseName (X ++ "-Meeting Recording.mp4") = X /\
       baseName (X ++ ".mp4") = X).
Proof.
  intros H.
  destruct (H "Q3.mp4" "240115" eq_refl) as (H1 & _).
  vm_compute in H1. discriminate H1.
Qed.

Example baseName_chained :
  baseName "Q3.mp4_240115UTC-Meeting Recording.mp4" = "Q3" /\
  baseName "Sync_240115UTC-Meeting Recording.mp4" = "Sync" /\
  baseName "Sync-Meeting Recording.mp4" = "Sync" /\
  scanBaseName "Q3.mp4_240115UTC-Meeting Recording.mp4" = "Q3.mp4".
Proof. repeat split. Qed.

End NameNormalizer.

(** ** CandidateMatcher *)

Section CandidateMatcher.

Lemma matches_exact (b : string) : matches b (b ++ ".vtt") = true.
Proof.
  unfold matches, some, matchPatterns. simpl existsb.
  now rewrite endsWith_append, String.eqb_refl.
Qed.

(** Whatever rule accepts a name, the name contains the first token. *)
Lemma some_pattern_first_token (b f : string) :
  some (matchPatterns b f) = true -> includes f (firstToken b) = true.
Proof.
  assert (P : startsWith f b = true -> includes f (firstToken b) = true).
  { intros H. apply startsWith_includes.
    apply (startsWith_trans f b); [exact H | apply firstToken_prefix]. }
  unfold some, matchPatterns; simpl existsb; intros H.
  repeat (apply orb_true_iff in H as [H|H]); try discriminate.
  - apply String.eqb_eq in H; subst f. apply P, startsWith_append.
  - apply String.eqb_eq in H; subst f. apply P, startsWith_append.
  - apply andb_true_iff in H as [H _]. auto.
  - apply andb_true_iff in H as [H _]. exact H.
Qed.

Lemma matches_first_token (b f : string) :
  matches b f = true -> includes f (firstToken b) = true.
Proof.
  unfold matches; intros H. apply andb_true_iff in H as [_ H].
  now apply some_pattern_first_token.
Qed.

(** C7.  The matcher accepts [b.vtt] for every base name [b], and rejects
    [unrelated.vtt] unless that name contains the first hyphen-token of
    [b]. *)
Theorem matches_exact_and_unrelated (b : string) :
  matches b (b ++ ".vtt") = true /\
  (includes "unrelated.vtt" (firstToken b) = false ->
   matches b "unrelated.vtt" = false).
Proof.
  split; [apply matches_exact|].
  intros H. destruct (matches b "unrelated.vtt") eqn:E; [|reflexivity].
  apply matches_first_token in E. congruence.
Qed.

Lemma matches_exact_and_unrelated_witness :
  matches "Weekly Sync" ("Weekly Sync" ++ ".vtt") = true /\
  matches "Weekly Sync" "unrelated.vtt" = false.
Proof.
  destruct (matches_exact_and_unrelated "Weekly Sync") as [H1 H2].
  split; [exact H1 | apply H2; reflexivity].
Defined.

End CandidateMatcher.

(** ** Reasoning about awaited code *)

Section Awaited.

Context {A B : Type}.

Lemma bind_run (m : M A) (k : A -> M B) (n : nat) (a : A) (n1 : nat) :
  m n = (Ret a, n1) -> bind m k n = k a n1.
Proof. unfold bind; now intros ->. Qed.


Lemma bind_inv (m : M A) (k : A -> M B) (n : nat) (b : B) (n2 : nat) :
  bind m k n = (Ret b, n2) ->
  exists a n1, m n = (Ret a, n1) /\ k a n1 = (Ret b, n2).
Proof.
  unfold bind; destruct (m n) as [[a|e] n1]; intros H; [eauto | discriminate].
Qed.

Lemma tryCatch_run (m : M A) (h : string -> M A) (n : nat) (a : A) (n1 : nat) :
  m n = (Ret a, n1) -> tryCatch m h n = (Ret a, n1).
Proof. unfold tryCatch; now intros ->. Qed.


Lemma safe_ret (a : A) : safe (ret a).
Proof. intros n; unfold ret; eauto. Qed.

Lemma safe_bind (m : M A) (k : A -> M B) :
  safe m -> (forall a, safe (k a)) -> safe (bind m k).
Proof.
  intros Hm Hk n. destruct (Hm n) as (a & n1 & E).
  rewrite (bind_run _ _ _ _ _ E). apply Hk.
Qed.

(** A [try] whose [catch] comes back never lets an exception through. *)
Lemma safe_tryCatch (m : M A) (h : string -> M A) :
  (forall e, safe (h e)) -> safe (tryCatch m h).
Proof.
  intros Hh n. unfold tryCatch.
  destruct (m n) as [[a|e] n1]; [eauto | apply Hh].
Qed.

Lemma post_ret (a : A) (Q : A -> Prop) : Q a -> post (ret a) Q.
Proof. intros H n a' n' E; inversion E; now subst. Qed.

Lemma post_throw (e : string) (Q : A -> Prop) : post (throw e) Q.
Proof. intros n a n' E; discriminate E. Qed.

Lemma post_bind (m : M A) (k : A -> M B) (Q : B -> Prop) :
  post m (fun a => post (k a) Q) -> post (bind m k) Q.
Proof.
  intros H n b n2 E. apply bind_inv in E as (a & n1 & E1 & E2).
  exact (H _ _ _ E1 _ _ _ E2).
Qed.

Lemma post_tryCatch (m : M A) (h : string -> M A) (Q : A -> Prop) :
  post m Q -> (forall e, post (h e) Q) -> post (tryCatch m h) Q.
Proof.
  intros Hm Hh n a n' E. unfold tryCatch in E.
  destruct (m n) as [[a0|e] n1] eqn:Em.
  - inversion E; subst. exact (Hm _ _ _ Em).
  - exact (Hh _ _ _ _ E).
Qed.

Lemma post_any (m : M A) (Q : A -> Prop) : (forall a, Q a) -> post m Q.
Proof. intros H n a n' _; apply H. Qed.

Lemma post_weaken (m : M A) (P Q : A -> Prop) :
  post m P -> (forall a, P a -> Q a) -> post m Q.
Proof. intros H HPQ n a n' E; exact (HPQ _ (H _ _ _ E)). Qed.

End Awaited.

Lemma post_orElse {A} (m k : M (option A)) (Q : option A -> Prop) :
  post m (fun r => r <> None -> Q r) -> post k Q -> post (m orElse k) Q.
Proof.
  intros Hm Hk. unfold fallThrough. apply post_bind.
  intros n r n1 E. destruct r as [a|].
  - apply post_ret. apply (Hm _ _ _ E). discriminate.
  - exact Hk.
Qed.

Lemma post_found_orElse (m k : M (option TranscriptFile)) (P : TranscriptFile -> Prop) :
  post m (found P) -> post k (found P) -> post (m orElse k) (found P).
Proof.
  intros Hm Hk. apply post_orElse; [|exact Hk].
  eapply post_weaken; [exact Hm | auto].
Qed.

Lemma safe_forOf {S A} (body : S -> A -> M S) (xs : list A) :
  (forall st x, safe (body st x)) -> forall st, safe (forOf body xs st).
Proof.
  intros H; induction xs as [|x xs IH]; intros st; simpl.
  - apply safe_ret.
  - apply safe_bind; [apply H | exact IH].
Qed.

(** A property kept by every round of a loop holds when the loop ends. *)
Lemma post_forOf {S A} (body : S -> A -> M S) (I : S -> Prop) (xs : list A) :
  (forall st x, In x xs -> I st -> post (body st x) I) ->
  forall st, I st -> post (forOf body xs st) I.
Proof.
  induction xs as [|x xs IH]; intros H st Hst; simpl.
  - now apply post_ret.
  - apply post_bind. eapply post_weaken.
    + apply H; [now left | exact Hst].
    + intros st' Hst'. apply IH; [|exact Hst'].
      intros st0 y Hy. apply H. now right.
Qed.

Create HintDb awaited.
#[local] Hint Resolve safe_ret safe_tryCatch safe_bind : awaited.
#[local] Hint Resolve post_ret post_throw : awaited.

Section Steps.

Context {A : Type}.

Lemma fallThrough_some (m k : M (option A)) (n : nat) (a : A) (n1 : nat) :
  m n = (Ret (Some a), n1) -> (m orElse k) n = (Ret (Some a), n1).
Proof. intros E; unfold fallThrough; now rewrite (bind_run _ _ _ _ _ E). Qed.

Lemma fallThrough_none (m k : M (option A)) (n n1 : nat) :
  m n = (Ret None, n1) -> (m orElse k) n = k n1.
Proof. intros E; unfold fallThrough; now rewrite (bind_run _ _ _ _ _ E). Qed.


Lemma fetchOk_body (call : nat -> reply A) (n : nat) (a : A) :
  call n = Body a -> fetchOk call n = (Ret (Some a), S n).
Proof. unfold fetchOk; now intros ->. Qed.



End Steps.

(** ** The loop that returns the first acceptable file *)

Section ReturnFirst.

Variable w : World.
Variables (cond : DriveItem -> bool) (fileName : string) (videoUrl : option string).

Lemma returnFirst_none (items : list DriveItem) (n : nat) :
  find cond items = None ->
  returnFirst w cond fileName videoUrl items n = (Ret None, n).
Proof.
  induction items as [|f rest IH]; simpl; intros H; [reflexivity|].
  destruct (cond f); [discriminate | auto].
Qed.

Lemma returnFirst_find (items : list DriveItem) (f : DriveItem) (c : string) (n : nat) :
  find cond items = Some f ->
  download w n (downloadUrl f) = Ret c ->
  returnFirst w cond fileName videoUrl items n
  = (Ret (Some (transcriptOf f c videoUrl (Some fileName))), S n).
Proof.
  induction items as [|g rest IH]; simpl; intros H D; [discriminate|].
  destruct (cond g); [|auto].
  inversion H; subst g. unfold bind, fetchText. now rewrite D.
Qed.

Lemma returnFirst_find_thrown (items : list DriveItem) (f : DriveItem) (e : string)
    (n : nat) :
  find cond items = Some f ->
  download w n (downloadUrl f) = Thrown e ->
  returnFirst w cond fileName videoUrl items n = (Thrown e, S n).
Proof.
  induction items as [|g rest IH]; simpl; intros H D; [discriminate|].
  destruct (cond g); [|auto].
  inversion H; subst g. unfold bind, fetchText. now rewrite D.
Qed.

End ReturnFirst.

(** ** TranscriptResolver *)

Section ResolverFacts.

Variable w : World.
Variables (driveItemId fileName : string) (videoUrl : option string).

Lemma tryFetchTranscriptFromStream_safe :
  safe (tryFetchTranscriptFromStream w driveItemId fileName videoUrl).
Proof. apply safe_tryCatch; intros e; apply safe_ret. Qed.

(** Once the stream lookup found nothing the resolver is the rest of its
    body under the outer [catch]. *)
Lemma resolver_after_stream (n n1 : nat) :
  tryFetchTranscriptFromStream w driveItemId fileName videoUrl n = (Ret None, n1) ->
  tryFetchTranscriptFromDriveItem w driveItemId fileName videoUrl n
  = tryCatch (afterStream w driveItemId fileName videoUrl) (fun _ => ret None) n1.
Proof.
  intros E. unfold tryFetchTranscriptFromDriveItem, tryCatch at 1.
  now rewrite (fallThrough_none _ _ _ _ E).
Qed.

(** With the parent folder listed, the body goes through the strategies
    that use the listing and then through the search. *)
Lemma afterStream_listed (n : nat) (parentId : string)
    (value : option (list DriveItem)) :
  driveItem w n driveItemId = Body (Some parentId) ->
  children w (S n) parentId = Body value ->
  afterStream w driveItemId fileName videoUrl n
  = (parentFolderStrategies w fileName videoUrl (orEmpty value)
     orElse afterParent w driveItemId fileName videoUrl) (S (S n)).
Proof.
  intros Hitem Hparent. unfold afterStream.
  rewrite (bind_run _ _ n (Some (Some parentId)) (S n)) by now apply fetchOk_body.
  cbv beta iota.
  rewrite (bind_run _ _ (S n) parentId (S n)) by reflexivity.
  unfold fallThrough, bind.
  now rewrite (fetchOk_body (fun k => children w k parentId) (S n) value Hparent).
Qed.

End ResolverFacts.

(** C9.  The resolver never lets an exception out: whatever the services
    answer or throw, it comes back with a transcript or with null, and so
    does the stream lookup it starts with. *)
Theorem resolver_never_throws (w : World) (driveItemId fileName : string)
    (videoUrl : option string) (n : nat) :
  (exists (r : option TranscriptFile) (n' : nat),
     tryFetchTranscriptFromDriveItem w driveItemId fileName videoUrl n = (Ret r, n')) /\
  (exists (r : option TranscriptFile) (n' : nat),
     tryFetchTranscriptFromStream w driveItemId fileName videoUrl n = (Ret r, n')).
Proof.
  split; [|apply tryFetchTranscriptFromStream_safe].
  revert n. change (safe (tryFetchTranscriptFromDriveItem w driveItemId fileName videoUrl)).
  apply safe_tryCatch; intros e; apply safe_ret.
Qed.

(** C8.  When the stream lookup and the rescan of the parent folder found
    nothing and the parent folder has a folder whose name is or contains
    the base name, the resolver lists the first such folder and returns
    its first file ending in [.vtt], whatever that file is called. *)
Theorem matching_subfolder_takes_first_vtt (w : World) (driveItemId fileName : string)
    (videoUrl : option string) (n n1 : nat) (parentId : string)
    (value : option (list DriveItem)) (folder : DriveItem)
    (files : list DriveItem) (f : DriveItem) (c : string) :
  tryFetchTranscriptFromStream w driveItemId fileName videoUrl n = (Ret None, n1) ->
  driveItem w n1 driveItemId = Body (Some parentId) ->
  children w (S n1) parentId = Body value ->
  find (parentCandidate (baseName fileName)) (orEmpty value) = None ->
  find (folderNamed (baseName fileName)) (orEmpty value) = Some folder ->
  children w (S (S n1)) (id folder) = Body (Some files) ->
  find isVttFile files = Some f ->
  download w (S (S (S n1))) (downloadUrl f) = Ret c ->
  tryFetchTranscriptFromDriveItem w driveItemId fileName videoUrl n
  = (Ret (Some (transcriptOf f c videoUrl (Some fileName))), S (S (S (S n1)))).
Proof.
  intros Hstream Hitem Hparent Hrescan Hfolder Hlist Hfirst Hdl.
  rewrite (resolver_after_stream _ _ _ _ _ _ Hstream).
  apply tryCatch_run.
  rewrite (afterStream_listed _ _ _ _ _ _ _ Hitem Hparent).
  apply fallThrough_some.
  unfold parentFolderStrategies.
  rewrite (fallThrough_none _ _ _ (S (S n1))) by now apply returnFirst_none.
  apply fallThrough_some.
  unfold matchingSubfolder; rewrite Hfolder.
  rewrite (bind_run _ _ _ (Some (Some files)) (S (S (S n1)))) by now apply fetchOk_body.
  now apply returnFirst_find.
Qed.

Lemma matching_subfolder_takes_first_vtt_witness :
  matches (baseName (name Scenario.recording)) (name Scenario.zzz) = false /\
  tryFetchTranscriptFromDriveItem Scenario.nested "rec-1" (name Scenario.recording)
    (Some (webUrl Scenario.recording)) 0
  = (Ret (Some (transcriptOf Scenario.zzz "WEBVTT https://dl.example/vtt-9"
                  (Some (webUrl Scenario.recording)) (Some (name Scenario.recording)))),
     7).
Proof.
  split; [reflexivity|].
  apply (matching_subfolder_takes_first_vtt Scenario.nested "rec-1"
           (name Scenario.recording) (Some (webUrl Scenario.recording))
           0 3 "folder-1" (Some [Scenario.recording; Scenario.subfolder])
           Scenario.subfolder
           [Scenario.fileNamed "doc-1" "agenda.docx"; Scenario.zzz] Scenario.zzz);
    reflexivity.
Defined.




(** C10.  For a base name that is empty or begins with a hyphen the first
    token is empty and every name contains it: the test on the parent
    folder and the test on the Transcript(s) folder accept every file
    ending in [.vtt], the last two search queries are [.vtt] and the empty
    string, and the search returns the first file ending in [.vtt] of the
    first answer that has one, whatever it is called. *)
Theorem empty_first_token_accepts_every_vtt (b : string) :
  b = "" \/ startsWith b "-" = true ->
  (forall f, isVttFile f = true ->
     parentCandidate b f = true /\ transcriptFolderCandidate b f = true) /\
  searchQueries b = [(b ++ ".vtt")%string; (b ++ "-transcript.vtt")%string; ".vtt"; ""] /\
  (forall w fileName videoUrl results f c n,
     search w n (b ++ ".vtt") = Body (Some results) ->
     find isVttFile results = Some f ->
     download w (S n) (downloadUrl f) = Ret c ->
     searchLoop w fileName videoUrl (searchQueries b) n
     = (Ret (Some (transcriptOf f c videoUrl (Some fileName))), S (S n))).
Proof.
  intros Hb. apply firstToken_empty_iff in Hb.
  split; [|split].
  - intros f Hf. unfold parentCandidate, transcriptFolderCandidate.
    unfold isVttFile in Hf. rewrite Hf.
    apply andb_true_iff in Hf as [_ Hvtt].
    unfold some, matchPatterns; simpl existsb.
    rewrite Hb, includes_nil, Hvtt. simpl. split; [|reflexivity].
    now rewrite !orb_true_r.
  - unfold searchQueries. now rewrite Hb.
  - intros w fileName videoUrl results f c n Hsearch Hfirst Hdl.
    unfold searchQueries. simpl searchLoop. apply fallThrough_some.
    rewrite (bind_run _ _ n (Some (Some results)) (S n)).
    + now apply returnFirst_find.
    + exact (fetchOk_body (fun k => search w k (b ++ ".vtt")%string) n _ Hsearch).
Qed.

Lemma empty_first_token_accepts_every_vtt_witness :
  parentCandidate "-weekly" Scenario.zzz = true /\
  transcriptFolderCandidate "-weekly" Scenario.zzz = true /\
  searchQueries "-weekly" = ["-weekly.vtt"; "-weekly-transcript.vtt"; ".vtt"; ""].
Proof.
  destruct (empty_first_token_accepts_every_vtt "-weekly" (or_intror eq_refl))
    as (H1 & H2 & _).
  destruct (H1 Scenario.zzz eq_refl) as [Ha Hb].
  repeat split; assumption.
Defined.

Section ResolverPost.

Variable w : World.
Variables (fileName : string) (video : option string).

Lemma post_bind_any {A B} (m : M A) (k : A -> M B) (Q : B -> Prop) :
  (forall a, post (k a) Q) -> post (bind m k) Q.
Proof. intros H; apply post_bind, post_any, H. Qed.

Lemma post_none (P : TranscriptFile -> Prop) : post (ret None) (found P).
Proof. now apply post_ret. Qed.

Lemma post_returnFirst (cond : DriveItem -> bool) (items : list DriveItem) :
  post (returnFirst w cond fileName video items) (found (lookedUp w fileName video)).
Proof.
  induction items as [|f rest IH]; simpl; [apply post_none|].
  destruct (cond f); [|exact IH].
  apply post_bind. intros n c n1 E. apply post_ret.
  unfold fetchText in E; inversion E as [[D N]].
  repeat split. now exists n, f.
Qed.

Ltac found_step :=
  first [ apply post_none
        | apply post_throw
        | apply post_returnFirst
        | apply post_found_orElse
        | apply post_bind_any; intros ? ].

Lemma post_stream (driveItemId : string) :
  post (tryFetchTranscriptFromStream w driveItemId fileName video)
       (found (lookedUp w fileName video)).
Proof.
  apply post_tryCatch; [|intros e; apply post_none].
  apply post_found_orElse.
  - apply post_bind_any; intros [value|]; found_step.
  - repeat found_step.
Qed.

Lemma post_searchLoop (queries : list string) :
  post (searchLoop w fileName video queries) (found (lookedUp w fileName video)).
Proof.
  induction queries as [|q rest IH]; simpl; [apply post_none|].
  apply post_found_orElse; [|exact IH].
  apply post_bind_any; intros [value|]; found_step.
Qed.

Lemma post_parentFolderStrategies (allItems : list DriveItem) :
  post (parentFolderStrategies w fileName video allItems)
       (found (lookedUp w fileName video)).
Proof.
  unfold parentFolderStrategies, parentRescan.
  apply post_found_orElse; [apply post_returnFirst|].
  apply post_found_orElse.
  - unfold matchingSubfolder.
    destruct (find _ allItems); [|apply post_none].
    apply post_bind_any; intros [[files|]|]; found_step.
  - unfold transcriptsSubfolder.
    destruct (find _ allItems); [|apply post_none].
    apply post_bind_any; intros [value|]; found_step.
Qed.

(** Every transcript the resolver returns was downloaded, and carries the
    recording it was looked up for. *)
Lemma post_resolver (driveItemId : string) :
  post (tryFetchTranscriptFromDriveItem w driveItemId fileName video)
       (found (lookedUp w fileName video)).
Proof.
  apply post_tryCatch; [|intros e; apply post_none].
  apply post_found_orElse; [apply post_stream|].
  unfold afterStream.
  apply post_bind_any; intros [parentReference|]; [|apply post_none].
  apply post_bind_any; intros parentId.
  apply post_found_orElse.
  - apply post_bind_any; intros [value|];
      [apply post_parentFolderStrategies | apply post_none].
  - unfold afterParent. do 2 found_step. apply post_searchLoop.
Qed.

End ResolverPost.

(** ** FolderScanOrchestrator *)

Lemma grows_refl (ts : list TranscriptFile) : grows ts ts.
Proof. exists []; now rewrite app_nil_r. Qed.

Lemma grows_push (ts : list TranscriptFile) (t : TranscriptFile) : grows ts (ts ++ [t]).
Proof. now exists [t]. Qed.

Lemma grows_In (ts ts' : list TranscriptFile) (t : TranscriptFile) :
  grows ts ts' -> In t ts -> In t ts'.
Proof. intros [l ->] H; apply in_or_app; now left. Qed.

#[local] Hint Resolve grows_refl grows_push : awaited.

Lemma find_by_name (x : string) (l : list DriveItem) (v : DriveItem) :
  find (fun f => name f =? x) l = Some v -> In v l /\ name v = x.
Proof.
  intros H; apply find_some in H as [Hin Heq].
  split; [exact Hin | now apply String.eqb_eq].
Qed.

(** A loop reaches a property at the round of [f] and keeps it after. *)
Lemma forOf_reaches {S A} (body : S -> A -> M S) (P : S -> Prop) (f : A) (xs : list A) :
  (forall st x, P st -> post (body st x) P) ->
  (forall st, post (body st f) P) ->
  In f xs ->
  forall st, post (forOf body xs st) P.
Proof.
  intros Hkeep Hf. induction xs as [|x xs IH]; intros Hin st; [contradiction|].
  simpl. apply post_bind. destruct Hin as [->|Hin].
  - eapply post_weaken; [apply Hf|].
    intros st' Hst'. apply post_forOf; auto.
  - apply post_any. intros st'. now apply IH.
Qed.

Section ScanFacts.

Variable w : World.

Lemma safe_vttStep (st : ScanState) (f : DriveItem) : safe (vttStep w st f).
Proof. destruct st; apply safe_tryCatch; intros e; apply safe_ret. Qed.

Lemma safe_mp4Step (vttFiles : list DriveItem) (st : ScanState) (m : DriveItem) :
  safe (mp4Step w vttFiles st m).
Proof. destruct st; apply safe_tryCatch; intros e; apply safe_ret. Qed.

Lemma safe_textStep (ts : list TranscriptFile) (f : DriveItem) : safe (textStep w ts f).
Proof.
  unfold textStep; destruct (isTextFile f); [|apply safe_ret].
  apply safe_tryCatch; intros e; apply safe_ret.
Qed.

(** The scan of a listing never throws. *)
Lemma safe_scan (allFiles : list DriveItem) : safe (scan w allFiles).
Proof.
  unfold scan. apply safe_bind; [apply safe_forOf, safe_vttStep|]; intros st1.
  apply safe_bind; [apply safe_forOf, safe_mp4Step|]; intros st2.
  apply safe_forOf, safe_textStep.
Qed.

Lemma vttStep_grows (st : ScanState) (f : DriveItem) :
  post (vttStep w st f) (fun st' => grows (fst st) (fst st')).
Proof.
  destruct st as [ts p]; unfold vttStep.
  apply post_tryCatch; [|intros e; apply post_ret; simpl; auto with awaited].
  apply post_bind_any; intros c. apply post_ret; simpl; auto with awaited.
Qed.

Lemma mp4Step_grows (vttFiles : list DriveItem) (st : ScanState) (m : DriveItem) :
  post (mp4Step w vttFiles st m) (fun st' => grows (fst st) (fst st')).
Proof.
  destruct st as [ts p]; unfold mp4Step; cbv zeta.
  apply post_tryCatch; [|intros e; apply post_ret; simpl; auto with awaited].
  destruct (has p _); [apply post_ret; simpl; auto with awaited|].
  assert (R : post
    (transcriptFromDriveItem <-
       tryFetchTranscriptFromDriveItem w (id m) (name m) (Some (webUrl m)) ;;
     match transcriptFromDriveItem with
     | Some t => ret (ts ++ [t], p)
     | None => ret (ts, p)
     end) (fun st' => grows (fst (ts, p)) (fst st'))).
  { apply post_bind_any; intros [t|]; apply post_ret; simpl; auto with awaited. }
  destruct (find _ vttFiles); [|exact R].
  destruct (negb _); [|exact R].
  apply post_bind_any; intros c. apply post_ret; simpl; auto with awaited.
Qed.

Lemma textStep_grows (ts : list TranscriptFile) (f : DriveItem) :
  post (textStep w ts f) (grows ts).
Proof.
  unfold textStep; destruct (isTextFile f); [|apply post_ret; auto with awaited].
  apply post_tryCatch; [|intros e; apply post_ret; auto with awaited].
  apply post_bind_any; intros c. apply post_ret; auto with awaited.
Qed.

Variable allFiles : list DriveItem.

Lemma traced_push (ts : list TranscriptFile) (t : TranscriptFile) :
  traced w allFiles ts -> origin w allFiles t -> traced w allFiles (ts ++ [t]).
Proof. intros H Ht; apply Forall_app; split; [exact H | now constructor]. Qed.

Lemma vttStep_origin (st : ScanState) (f : DriveItem) :
  In f (vttFilesOf allFiles) -> traced w allFiles (fst st) ->
  post (vttStep w st f) (fun st' => traced w allFiles (fst st')).
Proof.
  destruct st as [ts p]; intros Hin Hts; unfold vttStep.
  apply post_tryCatch; [|intros e; now apply post_ret].
  apply post_bind; intros n c n1 E. apply post_ret; simpl.
  apply traced_push; [exact Hts|].
  unfold fetchText in E; inversion E.
  now apply (standalone w allFiles _ f n c).
Qed.

Lemma mp4Step_origin (st : ScanState) (m : DriveItem) :
  In m (mp4FilesOf allFiles) -> traced w allFiles (fst st) ->
  post (mp4Step w (vttFilesOf allFiles) st m) (fun st' => traced w allFiles (fst st')).
Proof.
  destruct st as [ts p]; intros Hin Hts; unfold mp4Step; cbv zeta.
  apply post_tryCatch; [|intros e; now apply post_ret].
  destruct (has p _); [now apply post_ret|].
  assert (R : post
    (transcriptFromDriveItem <-
       tryFetchTranscriptFromDriveItem w (id m) (name m) (Some (webUrl m)) ;;
     match transcriptFromDriveItem with
     | Some t => ret (ts ++ [t], p)
     | None => ret (ts, p)
     end) (fun st' => traced w allFiles (fst st'))).
  { apply post_bind; intros n [t|] n1 E; apply post_ret; simpl; [|exact Hts].
    apply traced_push; [exact Hts|]. now apply (resolved w allFiles t m n n1). }
  destruct (find _ (vttFilesOf allFiles)) as [v|] eqn:F; [|exact R].
  destruct (negb _); [|exact R].
  apply find_by_name in F as [Hv Hname].
  apply post_bind; intros n c n1 E. apply post_ret; simpl.
  apply traced_push; [exact Hts|].
  unfold fetchText in E; inversion E.
  now apply (attached w allFiles _ m v n c).
Qed.

Lemma textStep_origin (ts : list TranscriptFile) (f : DriveItem) :
  In f allFiles -> traced w allFiles ts -> post (textStep w ts f) (traced w allFiles).
Proof.
  intros Hin Hts; unfold textStep.
  destruct (isTextFile f) eqn:T; [|now apply post_ret].
  apply post_tryCatch; [|intros e; now apply post_ret].
  apply post_bind; intros n c n1 E. apply post_ret.
  apply traced_push; [exact Hts|].
  unfold fetchText in E; inversion E.
  now apply (textual w allFiles _ f n c).
Qed.

(** Every transcript of the scan was pushed at one of the four places. *)
Lemma scan_origin : post (scan w allFiles) (Forall (origin w allFiles)).
Proof.
  unfold scan. apply post_bind.
  eapply post_weaken;
    [apply (post_forOf _ (fun st => traced w allFiles (fst st)));
       [intros st x; apply vttStep_origin | constructor]|].
  intros st1 H1. apply post_bind.
  eapply post_weaken;
    [apply (post_forOf _ (fun st => traced w allFiles (fst st)));
       [intros st x; apply mp4Step_origin | exact H1]|].
  intros st2 H2.
  apply (post_forOf _ (traced w allFiles)); [intros ts x; apply textStep_origin | exact H2].
Qed.

Lemma origin_downloaded (t : TranscriptFile) : origin w allFiles t -> downloaded w t.
Proof.
  intros [f k c _ D ->|mp4 f k c _ _ _ D ->|mp4 k k' _ E|f k c _ _ D ->];
    try (now exists k, f).
  exact (proj1 (post_resolver w _ _ _ _ _ _ E)).
Qed.

(** A transcript that names a recording was attached to it from the
    folder or found by the resolver for a recording of that name. *)
Lemma origin_video (t : TranscriptFile) (v : string) :
  origin w allFiles t -> videoFileName t = Some v ->
  exists mp4, In mp4 (mp4FilesOf allFiles) /\ name mp4 = v /\
    ((exists f, In f (vttFilesOf allFiles) /\ name f = possibleVttName (name mp4)) \/
     (exists k k', tryFetchTranscriptFromDriveItem w (id mp4) (name mp4)
                     (Some (webUrl mp4)) k = (Ret (Some t), k'))).
Proof.
  intros [f k c _ D ->|mp4 f k c Hm Hf Hn D ->|mp4 k k' Hm E|f k c _ _ D ->] V;
    simpl in V; try discriminate.
  - inversion V; subst v. exists mp4; eauto 6.
  - destruct (post_resolver w _ _ _ _ _ _ E) as (_ & V' & _).
    rewrite V in V'; inversion V'; subst v. exists mp4; eauto 6.
Qed.

End ScanFacts.

(** *** Files that download are returned, whatever happens to the others *)

Section GoodFiles.

Variables (w : World) (allFiles : list DriveItem).
Variables (f : DriveItem) (c : string).
Hypothesis good : forall k, download w k (downloadUrl f) = Ret c.

Lemma keeps_push (ts : list TranscriptFile) : keeps f c (ts ++ [transcriptOf f c None None]).
Proof. apply in_or_app; right; now left. Qed.

Lemma vttStep_keeps (st : ScanState) (x : DriveItem) :
  keeps f c (fst st) -> post (vttStep w st x) (fun st' => keeps f c (fst st')).
Proof.
  intros H. eapply post_weaken; [apply vttStep_grows|].
  intros st' G. exact (grows_In _ _ _ G H).
Qed.

Lemma mp4Step_keeps (vttFiles : list DriveItem) (st : ScanState) (x : DriveItem) :
  keeps f c (fst st) -> post (mp4Step w vttFiles st x) (fun st' => keeps f c (fst st')).
Proof.
  intros H. eapply post_weaken; [apply mp4Step_grows|].
  intros st' G. exact (grows_In _ _ _ G H).
Qed.

Lemma textStep_keeps (ts : list TranscriptFile) (x : DriveItem) :
  keeps f c ts -> post (textStep w ts x) (keeps f c).
Proof.
  intros H. eapply post_weaken; [apply textStep_grows|].
  intros st' G. exact (grows_In _ _ _ G H).
Qed.

Lemma vttStep_reaches (st : ScanState) :
  post (vttStep w st f) (fun st' => keeps f c (fst st')).
Proof.
  destruct st as [ts p]. intros n st' n' E.
  unfold vttStep, tryCatch, bind, fetchText in E. rewrite good in E.
  inversion E; subst. apply keeps_push.
Qed.

Lemma textStep_reaches (ts : list TranscriptFile) :
  isTextFile f = true -> post (textStep w ts f) (keeps f c).
Proof.
  intros T n ts' n' E.
  unfold textStep, tryCatch, bind, fetchText in E. rewrite T, good in E.
  inversion E; subst. apply keeps_push.
Qed.

(** A VTT or text file of the folder whose download succeeds is among the
    transcripts of the scan, whichever other downloads fail. *)
Lemma scan_keeps_good_file :
  In f (vttFilesOf allFiles) \/ (In f allFiles /\ isTextFile f = true) ->
  post (scan w allFiles) (keeps f c).
Proof.
  intros [Hvtt|[Hin Htext]]; unfold scan.
  - apply post_bind.
    eapply post_weaken;
      [apply (forOf_reaches _ (fun st => keeps f c (fst st)) f);
         [intros st x; apply vttStep_keeps | apply vttStep_reaches | exact Hvtt]|].
    intros st1 H1. apply post_bind.
    eapply post_weaken;
      [apply (post_forOf _ (fun st => keeps f c (fst st)));
         [intros st x _; apply mp4Step_keeps | exact H1]|].
    intros st2 H2.
    apply (post_forOf _ (keeps f c)); [intros ts x _; apply textStep_keeps | exact H2].
  - apply post_bind_any; intros st1. apply post_bind_any; intros st2.
    apply (forOf_reaches _ (keeps f c) f);
      [intros ts x; apply textStep_keeps | intros ts; now apply textStep_reaches
      | exact Hin].
Qed.

End GoodFiles.

(** ** The [fetch] action *)

Section FetchAction.

Variable w : World.

Lemma safe_storeStep (st : list Row * list ErrorEntry) (t : TranscriptFile) :
  safe (storeStep w st t).
Proof. destruct st; apply safe_tryCatch; intros e; apply safe_ret. Qed.

(** One round stores a row, or reports the transcript once, or neither. *)
Lemma storeStep_cases (st : list Row * list ErrorEntry) (t : TranscriptFile) :
  post (storeStep w st t)
    (fun st' =>
       (exists d, st' = (fst st ++ [d], snd st)) \/
       (exists msg, st' = (fst st, snd st ++ [mkError (t_name t) msg])) \/
       st' = st).
Proof.
  destruct st as [stored errs]; unfold storeStep.
  apply post_tryCatch; [|intros e; apply post_ret; simpl; eauto].
  apply post_bind_any; intros r.
  destruct (upsertError r) as [msg|]; [apply post_ret; simpl; eauto|].
  destruct (data r) as [d|]; apply post_ret; simpl; eauto.
Qed.

(** [errors] has entries for transcripts of the list only, and with the
    stored rows no more of them than there are transcripts. *)
Lemma storeLoop_accounts (ts : list TranscriptFile) :
  forall st : list Row * list ErrorEntry,
    post (forOf (storeStep w) ts st)
      (fun st' =>
         length (fst st') + length (snd st')
           <= length (fst st) + length (snd st) + length ts /\
         (forall e, In e (snd st') ->
            In e (snd st) \/ exists t, In t ts /\ file e = t_name t)).
Proof.
  induction ts as [|t ts IH]; intros st; simpl forOf.
  - apply post_ret. split; [lia | auto].
  - apply post_bind. eapply post_weaken; [apply storeStep_cases|].
    intros st1 Hst1. eapply post_weaken; [apply IH|].
    intros st' [Hlen Hin]. simpl length.
    destruct Hst1 as [[d ->]|[[msg ->]| ->]]; simpl in *;
      rewrite ?length_app in Hlen; simpl in Hlen; (split; [lia|]);
      intros e He; destruct (Hin e He) as [H|(t' & Ht' & Hf)]; eauto.
    apply in_app_or in H as [H|[<-|[]]]; eauto.
Qed.

(** The response of the action when the folder was listed. *)
Lemma fetchAction_run (n : nat) (allFiles : list DriveItem)
    (ts : list TranscriptFile) (n1 : nat)
    (stored : list Row) (errs : list ErrorEntry) (n2 : nat) :
  folderFiles w n = Ret allFiles ->
  scan w allFiles (S n) = (Ret ts, n1) ->
  forOf (storeStep w) ts ([], []) n1 = (Ret (stored, errs), n2) ->
  fetchAction w n
  = (Ret (Ok200 {| count := length stored; total := length ts;
                   transcripts := stored;
                   errors := match errs with [] => None | _ => Some errs end |}),
     n2).
Proof.
  intros Hlist Hscan Hstore.
  unfold fetchAction, fetchSharePointTranscripts, tryCatch, bind.
  now rewrite Hlist, Hscan, Hstore.
Qed.

(** What the response says of a listed folder: [total] is the number of
    transcripts the scan returned, and [errors] names some of them. *)
Lemma fetchAction_summary (n : nat) (allFiles : list DriveItem) :
  folderFiles w n = Ret allFiles ->
  exists ts n1 body n2,
    scan w allFiles (S n) = (Ret ts, n1) /\
    fetchAction w n = (Ret (Ok200 body), n2) /\
    total body = length ts /\
    count body + length (reported body) <= length ts /\
    (forall e, In e (reported body) -> exists t, In t ts /\ file e = t_name t).
Proof.
  intros Hlist.
  destruct (safe_scan w allFiles (S n)) as (ts & n1 & Hscan).
  destruct (safe_forOf (storeStep w) ts (safe_storeStep) ([], []) n1)
    as ([stored errs] & n2 & Hstore).
  destruct (storeLoop_accounts ts _ _ _ _ Hstore) as [Hlen Hin]; simpl in Hlen, Hin.
  exists ts, n1; eexists; exists n2.
  split; [exact Hscan|].
  split; [exact (fetchAction_run _ _ _ _ _ _ _ Hlist Hscan Hstore)|].
  unfold reported; simpl.
  split; [reflexivity|].
  split; [destruct errs; simpl in *; lia|].
  intros e He. destruct errs as [|e0 errs]; [contradiction|].
  destruct (Hin e He) as [[]|H]; exact H.
Qed.

End FetchAction.

(** ** The scenarios of the specification *)

Section WeeklySync.

Variables (w : World) (rec v : DriveItem).
Hypothesis rec_name : name rec = "Weekly Sync_240115UTC-Meeting Recording.mp4".
Hypothesis rec_file : isFile rec = true.
Hypothesis v_name : name v = "Weekly Sync.vtt".
Hypothesis v_file : isFile v = true.

Lemma weekly_vttFiles : vttFilesOf [rec; v] = [v] /\ vttFilesOf [v; rec] = [v].
Proof. unfold vttFilesOf; simpl filter. now rewrite rec_name, v_name, rec_file, v_file. Qed.

Lemma weekly_mp4Files : mp4FilesOf [rec; v] = [rec] /\ mp4FilesOf [v; rec] = [rec].
Proof. unfold mp4FilesOf; simpl filter. now rewrite rec_name, v_name, rec_file, v_file. Qed.

Lemma weekly_possibleVttName : possibleVttName (name rec) = "Weekly Sync.vtt".
Proof. now rewrite rec_name. Qed.

Lemma weekly_no_text : isTextFile rec = false /\ isTextFile v = false.
Proof. unfold isTextFile. now rewrite rec_name, v_name, rec_file, v_file. Qed.

Lemma weekly_textLoop (ts : list TranscriptFile) (n : nat) :
  forOf (textStep w) [rec; v] ts n = (Ret ts, n) /\
  forOf (textStep w) [v; rec] ts n = (Ret ts, n).
Proof.
  destruct weekly_no_text as [Hr Hv].
  simpl; unfold bind, textStep; now rewrite Hr, Hv.
Qed.

(** The two loops before the text files: the VTT is downloaded and
    returned standalone, the recording finds its VTT name processed. *)
Lemma weekly_vttLoop (n : nat) (c : string) :
  download w n (downloadUrl v) = Ret c ->
  forOf (vttStep w) [v] (([], []) : ScanState) n
  = (Ret (([transcriptOf v c None None], [name v]) : ScanState), S n).
Proof.
  intros D. simpl forOf. unfold bind, vttStep, tryCatch, fetchText. now rewrite D.
Qed.

Lemma weekly_mp4Loop (n : nat) (c : string) :
  forOf (mp4Step w [v]) [rec] (([transcriptOf v c None None], [name v]) : ScanState) n
  = (Ret (([transcriptOf v c None None], [name v]) : ScanState), n).
Proof.
  simpl forOf. unfold bind, mp4Step, tryCatch.
  now rewrite weekly_possibleVttName, v_name.
Qed.

Lemma weekly_standalone (n : nat) (c : string) :
  download w n (downloadUrl v) = Ret c ->
  scan w [rec; v] n = (Ret [transcriptOf v c None None], S n).
Proof.
  intros D. unfold scan; cbv zeta.
  rewrite (proj1 weekly_vttFiles), (proj1 weekly_mp4Files).
  rewrite (bind_run _ _ n (([transcriptOf v c None None], [name v]) : ScanState) (S n)).
  - rewrite (bind_run _ _ (S n) (([transcriptOf v c None None], [name v]) : ScanState) (S n)).
    + apply weekly_textLoop.
    + apply weekly_mp4Loop.
  - now apply weekly_vttLoop.
Qed.

Lemma weekly_standalone_swapped (n : nat) (c : string) :
  download w n (downloadUrl v) = Ret c ->
  scan w [v; rec] n = (Ret [transcriptOf v c None None], S n).
Proof.
  intros D. unfold scan; cbv zeta.
  rewrite (proj2 weekly_vttFiles), (proj2 weekly_mp4Files).
  rewrite (bind_run _ _ n (([transcriptOf v c None None], [name v]) : ScanState) (S n)).
  - rewrite (bind_run _ _ (S n) (([transcriptOf v c None None], [name v]) : ScanState) (S n)).
    + apply weekly_textLoop.
    + apply weekly_mp4Loop.
  - now apply weekly_vttLoop.
Qed.

End WeeklySync.

(** C2, as the code has it.  For the folder that holds the recording
    [Weekly Sync_240115UTC-Meeting Recording.mp4] and the transcript
    [Weekly Sync.vtt], listed in either order, when the download of the
    VTT succeeds the scan returns exactly one transcript, for
    [Weekly Sync.vtt], and it is standalone: it names no video.  The loop
    over the VTT files has returned it and recorded its name, so the
    recording is skipped, and the scan has made that one download only. *)
Theorem weekly_sync_scan (w : World) (rec v : DriveItem) (n : nat) (c : string) :
  name rec = "Weekly Sync_240115UTC-Meeting Recording.mp4" ->
  isFile rec = true ->
  name v = "Weekly Sync.vtt" ->
  isFile v = true ->
  download w n (downloadUrl v) = Ret c ->
  scan w [rec; v] n = (Ret [transcriptOf v c None None], S n) /\
  scan w [v; rec] n = (Ret [transcriptOf v c None None], S n) /\
  t_name (transcriptOf v c None None) = "Weekly Sync.vtt" /\
  videoUrl (transcriptOf v c None None) = None /\
  videoFileName (transcriptOf v c None None) = None.
Proof.
  intros Hr Hrf Hv Hvf D.
  split; [now apply weekly_standalone|].
  split; [now apply weekly_standalone_swapped|].
  now rewrite <- Hv.
Qed.

Lemma weekly_sync_scan_witness :
  scan (Scenario.quiet Scenario.weekly)
    [Scenario.recording; Scenario.fileNamed "vtt-1" "Weekly Sync.vtt"] 0
  = (Ret [transcriptOf (Scenario.fileNamed "vtt-1" "Weekly Sync.vtt")
            "WEBVTT https://dl.example/vtt-1" None None], 1) /\
  scan (Scenario.quiet Scenario.weekly)
    [Scenario.fileNamed "vtt-1" "Weekly Sync.vtt"; Scenario.recording] 0
  = (Ret [transcriptOf (Scenario.fileNamed "vtt-1" "Weekly Sync.vtt")
            "WEBVTT https://dl.example/vtt-1" None None], 1) /\
  t_name (transcriptOf (Scenario.fileNamed "vtt-1" "Weekly Sync.vtt")
            "WEBVTT https://dl.example/vtt-1" None None) = "Weekly Sync.vtt" /\
  videoUrl (transcriptOf (Scenario.fileNamed "vtt-1" "Weekly Sync.vtt")
              "WEBVTT https://dl.example/vtt-1" None None) = None /\
  videoFileName (transcriptOf (Scenario.fileNamed "vtt-1" "Weekly Sync.vtt")
                   "WEBVTT https://dl.example/vtt-1" None None) = None.
Proof.
  apply (weekly_sync_scan (Scenario.quiet Scenario.weekly) Scenario.recording
           (Scenario.fileNamed "vtt-1" "Weekly Sync.vtt") 0
           "WEBVTT https://dl.example/vtt-1"
           eq_refl eq_refl eq_refl eq_refl eq_refl).
Defined.

(** C2 as stated fails: with every download succeeding, the one transcript
    of the scenario names no video. *)
Lemma weekly_sync_has_no_video :
  exists t n,
    scan (Scenario.quiet Scenario.weekly) Scenario.weekly 0 = (Ret [t], n) /\
    t_name t = "Weekly Sync.vtt" /\
    videoFileName t <> Some "Weekly Sync_240115UTC-Meeting Recording.mp4".
Proof.
  eexists; eexists; split; [vm_compute; reflexivity|].
  split; [reflexivity | discriminate].
Qed.

(** C1 at a folder the code can meet: the transcript carries the
    [-transcript] suffix.  The loop over the VTT files returns it and
    records its name; the resolver, which is not given the processed
    names, finds it again in the parent folder; the scan returns the same
    file twice, once standalone and once for the recording. *)
Theorem scan_returns_vtt_twice :
  exists t1 t2 n,
    scan Scenario.suffixedWorld Scenario.suffixed 0 = (Ret [t1; t2], n) /\
    t_name t1 = "Weekly Sync-transcript.vtt" /\
    t_name t2 = "Weekly Sync-transcript.vtt" /\
    url t1 = url t2 /\
    videoFileName t1 = None /\
    videoFileName t2 = Some "Weekly Sync_240115UTC-Meeting Recording.mp4".
Proof.
  do 3 eexists; split; [vm_compute; reflexivity|].
  repeat split.
Qed.

(** *** Every record is the record of an item that was downloaded *)

Section Provenance.

Variable w : World.

Lemma post_fetchOk {A} (call : nat -> reply A) :
  post (fetchOk call) (fun r => forall a, r = Some a -> exists k, call k = Body a).
Proof.
  intros n r n' E a ->. unfold fetchOk in E.
  destruct (call n) as [e| |a'] eqn:C; inversion E; subst. now exists n.
Qed.

Lemma listedBy_children (k : nat) (i : string) (value : option (list DriveItem))
    (g : DriveItem) :
  children w k i = Body value -> In g (orEmpty value) -> listedBy w g.
Proof. intros H Hg; left; now exists k, i, value. Qed.

Lemma listedBy_search (k : nat) (q : string) (value : option (list DriveItem))
    (g : DriveItem) :
  search w k q = Body value -> In g (orEmpty value) -> listedBy w g.
Proof. intros H Hg; right; now exists k, q, value. Qed.

Variables (fileName : string) (video : option string).

(** A transcript returned from a list of items is the record of one of
    them, with the text of its own download. *)
Lemma post_returnFirst_item (cond : DriveItem -> bool) (items : list DriveItem) :
  post (returnFirst w cond fileName video items)
    (found (fun t => exists g, In g items /\ builtFrom w g t)).
Proof.
  induction items as [|f rest IH]; simpl returnFirst; [apply post_none|].
  destruct (cond f) eqn:C.
  - apply post_bind. intros n c n1 E. apply post_ret.
    unfold fetchText in E; inversion E as [[D N]].
    exists f; split; [now left|]. now exists n, c.
  - eapply post_weaken; [exact IH|].
    intros [t|]; [|trivial]. intros (g & Hg & Hb). exists g; split; [now right | exact Hb].
Qed.

Lemma post_returnFirst_listed (cond : DriveItem -> bool) (items : list DriveItem) :
  (forall g, In g items -> listedBy w g) ->
  post (returnFirst w cond fileName video items)
    (found (fun t => exists g, listedBy w g /\ builtFrom w g t)).
Proof.
  intros Hitems. eapply post_weaken; [apply post_returnFirst_item|].
  intros [t|]; [|trivial]. intros (g & Hg & Hb). exists g; auto.
Qed.

(** A listing of children, then the first of its items that passes. *)
Lemma post_children_then (i : string) (cond : DriveItem -> bool) :
  post (value <- fetchOk (fun n => children w n i) ;;
        match value with
        | Some value => returnFirst w cond fileName video (orEmpty value)
        | None => ret None
        end)
    (found (fun t => exists g, listedBy w g /\ builtFrom w g t)).
Proof.
  apply post_bind. intros n [value|] n1 E; [|apply post_none].
  destruct (post_fetchOk _ _ _ _ E value eq_refl) as [k Hk].
  apply post_returnFirst_listed. intros g Hg. exact (listedBy_children _ _ _ _ Hk Hg).
Qed.

Lemma post_searchLoop_listed (queries : list string) :
  post (searchLoop w fileName video queries)
    (found (fun t => exists g, listedBy w g /\ builtFrom w g t)).
Proof.
  induction queries as [|q rest IH]; simpl searchLoop; [apply post_none|].
  apply post_found_orElse; [|exact IH].
  apply post_bind. intros n [value|] n1 E; [|apply post_none].
  destruct (post_fetchOk _ _ _ _ E value eq_refl) as [k Hk].
  apply post_returnFirst_listed. intros g Hg. exact (listedBy_search _ _ _ _ Hk Hg).
Qed.

Lemma post_parentFolderStrategies_listed (allItems : list DriveItem) :
  (forall g, In g allItems -> listedBy w g) ->
  post (parentFolderStrategies w fileName video allItems)
    (found (fun t => exists g, listedBy w g /\ builtFrom w g t)).
Proof.
  intros Hall. unfold parentFolderStrategies, parentRescan; cbv zeta.
  apply post_found_orElse; [now apply post_returnFirst_listed|].
  apply post_found_orElse.
  - unfold matchingSubfolder.
    destruct (find _ allItems) as [folderNameMatch|]; [|apply post_none].
    apply post_bind. intros n [[files|]|] n1 E;
      [|apply post_throw|apply post_none].
    destruct (post_fetchOk _ _ _ _ E (Some files) eq_refl) as [k Hk].
    apply post_returnFirst_listed. intros g Hg.
    exact (listedBy_children _ _ (Some files) _ Hk Hg).
  - unfold transcriptsSubfolder.
    destruct (find _ allItems) as [transcriptFolder|]; [|apply post_none].
    apply post_children_then.
Qed.

(** Whatever strategy found it, the transcript of the resolver is the
    record of an item of an answered listing, with the text of that item's
    own download. *)
Lemma post_resolver_listed (driveItemId : string) :
  post (tryFetchTranscriptFromDriveItem w driveItemId fileName video)
    (found (fun t => exists g, listedBy w g /\ builtFrom w g t)).
Proof.
  apply post_tryCatch; [|intros e; apply post_none].
  apply post_found_orElse.
  - apply post_tryCatch; [|intros e; apply post_none].
    apply post_found_orElse; [apply post_children_then|].
    apply post_bind_any; intros _. apply post_bind_any; intros _. apply post_none.
  - unfold afterStream.
    apply post_bind_any; intros [parentReference|]; [|apply post_none].
    apply post_bind_any; intros parentId.
    apply post_found_orElse.
    + apply post_bind. intros n [value|] n1 E; [|apply post_none].
      destruct (post_fetchOk _ _ _ _ E value eq_refl) as [k Hk].
      apply post_parentFolderStrategies_listed.
      intros g Hg. exact (listedBy_children _ _ _ _ Hk Hg).
    + unfold afterParent.
      apply post_bind_any; intros _. apply post_bind_any; intros _.
      apply post_searchLoop_listed.
Qed.

End Provenance.

Section ScanProvenance.

Variables (w : World) (allFiles : list DriveItem).

(** Each of the four places of the scan pushes the record of an item it
    has just downloaded. *)
Lemma origin_builtFrom (t : TranscriptFile) :
  origin w allFiles t -> exists g, met w allFiles g /\ builtFrom w g t.
Proof.
  intros [f k c Hf D ->|mp4 f k c _ Hf _ D ->|mp4 k k' _ E|f k c Hf _ D ->].
  - exists f; split; [left; exact (proj1 (proj1 (filter_In _ _ _) Hf))|now exists k, c].
  - exists f; split; [left; exact (proj1 (proj1 (filter_In _ _ _) Hf))|now exists k, c].
  - destruct (post_resolver_listed w _ _ _ _ _ _ E) as (g & Hg & Hb).
    exists g; split; [right; exact Hg | exact Hb].
  - exists f; split; [left; exact Hf | now exists k, c].
Qed.

(** A record with the URL of [f] needs a download that succeeded, of [f]
    or of another item the scan met at the same URL. *)
Lemma failed_file_left_out (f : DriveItem) (t : TranscriptFile) :
  neverDownloads w f ->
  (forall g, met w allFiles g -> webUrl g = webUrl f -> downloadUrl g = downloadUrl f) ->
  origin w allFiles t -> url t <> webUrl f.
Proof.
  intros Hfail Hsame Ho Hurl.
  destruct (origin_builtFrom t Ho) as (g & Hg & k & c & D & Ht).
  rewrite Ht in Hurl; simpl in Hurl.
  rewrite (Hsame g Hg Hurl) in D.
  destruct (Hfail k) as [e He]. rewrite He in D. discriminate D.
Qed.

End ScanProvenance.

(** C3, as the code has it.  The scan of a listed folder never throws and
    has no error list of its own.  Every record it returns is the record
    of an item it met, in the folder or in an answered lookup, with the
    text that a download of that very item came back with.  So a file
    whose download fails whenever it is asked for is left out: no record
    has its URL, as long as the scan meets no other item at that URL with
    another download link.  The scan goes on: every VTT or text file whose
    download succeeds is returned, whichever other downloads fail.  The
    [errors] of the response come from the storing of returned records
    only: each entry names one of them, and with the stored rows there are
    no more entries than records.  A failed download is not reported
    there. *)
Theorem failed_download_is_skipped (w : World) (n : nat) (allFiles : list DriveItem) :
  folderFiles w n = Ret allFiles ->
  exists ts n1 body n2,
    scan w allFiles (S n) = (Ret ts, n1) /\
    fetchAction w n = (Ret (Ok200 body), n2) /\
    (forall t, In t ts -> exists g, met w allFiles g /\ builtFrom w g t) /\
    (forall f,
       neverDownloads w f ->
       (forall g, met w allFiles g -> webUrl g = webUrl f ->
                  downloadUrl g = downloadUrl f) ->
       forall t, In t ts -> url t <> webUrl f) /\
    (forall f c,
       In f (vttFilesOf allFiles) \/ (In f allFiles /\ isTextFile f = true) ->
       (forall k, download w k (downloadUrl f) = Ret c) ->
       In (transcriptOf f c None None) ts) /\
    (forall e, In e (reported body) -> exists t, In t ts /\ file e = t_name t) /\
    count body + length (reported body) <= length ts.
Proof.
  intros Hlist.
  destruct (fetchAction_summary w n allFiles Hlist)
    as (ts & n1 & body & n2 & Hscan & Hact & _ & Hlen & Herr).
  pose proof (scan_origin _ _ _ _ _ Hscan) as Hall.
  rewrite Forall_forall in Hall.
  exists ts, n1, body, n2.
  split; [exact Hscan|]. split; [exact Hact|].
  split; [intros t Ht; exact (origin_builtFrom w allFiles t (Hall t Ht))|].
  split; [intros f Hfail Hsame t Ht;
          exact (failed_file_left_out w allFiles f t Hfail Hsame (Hall t Ht))|].
  split; [|split; assumption].
  intros f c Hf Hgood.
  exact (scan_keeps_good_file w allFiles f c Hgood Hf _ _ _ Hscan).
Qed.

(** The folder of the example: the download of [Notes.txt] fails, the two
    files that download are returned, and no record has the URL of
    [Notes.txt]. *)
Lemma failed_download_is_skipped_witness :
  exists ts n1 body n2,
    scan Example.mixedWorld Example.mixed 1 = (Ret ts, n1) /\
    fetchAction Example.mixedWorld 0 = (Ret (Ok200 body), n2) /\
    (forall t, In t ts ->
       exists g, met Example.mixedWorld Example.mixed g /\
                 builtFrom Example.mixedWorld g t) /\
    (forall t, In t ts -> url t <> webUrl Scenario.notes) /\
    In (transcriptOf (Scenario.fileNamed "vtt-1" "Weekly Sync.vtt")
          "TEXT https://dl.example/vtt-1" None None) ts /\
    In (transcriptOf (Scenario.fileNamed "doc-1" "agenda.docx")
          "TEXT https://dl.example/doc-1" None None) ts /\
    (forall e, In e (reported body) -> exists t, In t ts /\ file e = t_name t) /\
    count body + length (reported body) <= length ts.
Proof.
  destruct (failed_download_is_skipped Example.mixedWorld 0 Example.mixed eq_refl)
    as (ts & n1 & body & n2 & Hscan & Hact & Hfrom & Hout & Hgood & Herr & Hlen).
  exists ts, n1, body, n2.
  split; [exact Hscan|]. split; [exact Hact|]. split; [exact Hfrom|].
  split.
  - apply (Hout Scenario.notes).
    + intros k. exists "TypeError: fetch failed". reflexivity.
    + intros g [Hg|[(k & i & value & H & _)|(k & q & value & H & _)]] Hurl;
        [|discriminate H|discriminate H].
      simpl in Hg. destruct Hg as [<-|[<-|[<-|[<-|[]]]]];
        solve [reflexivity | discriminate Hurl].
  - split; [apply Hgood; [left; vm_compute; left; reflexivity | intros k; reflexivity]|].
    split; [apply Hgood; [right; split; [vm_compute; auto | reflexivity]
                         | intros k; reflexivity]|].
    split; assumption.
Defined.

(** C3 as stated fails: the download of [Notes.txt] throws, the file is
    left out of the records, and [errors] does not hold it once but not
    at all. *)
Lemma failed_download_is_not_reported :
  isTextFile Scenario.notes = true /\
  download Scenario.offline 1 (downloadUrl Scenario.notes)
  = Thrown "TypeError: fetch failed" /\
  exists body n,
    fetchAction Scenario.offline 0 = (Ret (Ok200 body), n) /\
    transcripts body = [] /\
    length (filter (fun e => file e =? name Scenario.notes) (reported body)) <> 1.
Proof.
  split; [reflexivity|]. split; [reflexivity|].
  do 2 eexists; split; [vm_compute; reflexivity|].
  split; [reflexivity | discriminate].
Qed.

(** C4, as the code has it.  For a recording with no VTT of its name in
    the folder and for which the resolver finds nothing, the scan returns
    no transcript naming that recording, and [errors] names returned
    transcripts only, so nothing is added for it.  [total] in the response
    is the number of transcripts returned: the recording is not counted. *)
Theorem unresolved_recording_is_absent (w : World) (n : nat)
    (allFiles : list DriveItem) (mp4 : DriveItem) :
  folderFiles w n = Ret allFiles ->
  In mp4 (mp4FilesOf allFiles) ->
  (forall v, In v (vttFilesOf allFiles) -> name v <> possibleVttName (name mp4)) ->
  (forall m k,
     In m (mp4FilesOf allFiles) -> name m = name mp4 ->
     fst (tryFetchTranscriptFromDriveItem w (id m) (name m) (Some (webUrl m)) k)
     = Ret None) ->
  exists ts n1 body n2,
    scan w allFiles (S n) = (Ret ts, n1) /\
    fetchAction w n = (Ret (Ok200 body), n2) /\
    (forall t, In t ts -> videoFileName t <> Some (name mp4)) /\
    (forall e, In e (reported body) -> exists t, In t ts /\ file e = t_name t) /\
    total body = length ts.
Proof.
  intros Hlist Hmp4 Hsame Hnull.
  destruct (fetchAction_summary w n allFiles Hlist)
    as (ts & n1 & body & n2 & Hscan & Hact & Htotal & _ & Herr).
  exists ts, n1, body, n2. repeat split; try assumption.
  intros t Ht V.
  pose proof (scan_origin _ _ _ _ _ Hscan) as Hall.
  rewrite Forall_forall in Hall.
  destruct (origin_video w allFiles t _ (Hall t Ht) V)
    as (m & Hm & Hname & [(f & Hf & Hfn)|(k & k' & E)]).
  - apply (Hsame f Hf). now rewrite Hfn, Hname.
  - specialize (Hnull m k Hm Hname). rewrite E in Hnull. discriminate Hnull.
Qed.

Lemma unresolved_recording_is_absent_witness :
  exists ts n1 body n2,
    scan Scenario.lonely [Scenario.recording] 1 = (Ret ts, n1) /\
    fetchAction Scenario.lonely 0 = (Ret (Ok200 body), n2) /\
    (forall t, In t ts -> videoFileName t <> Some (name Scenario.recording)) /\
    (forall e, In e (reported body) -> exists t, In t ts /\ file e = t_name t) /\
    total body = length ts.
Proof.
  apply (unresolved_recording_is_absent Scenario.lonely 0 [Scenario.recording]
           Scenario.recording).
  - reflexivity.
  - vm_compute; left; reflexivity.
  - intros v Hv; vm_compute in Hv; contradiction.
  - intros m k Hm _; vm_compute in Hm; destruct Hm as [<-|[]]; reflexivity.
Defined.

(** C4 as stated fails on its last part: the folder holds one recording
    for which every lookup answers and none finds a transcript; the
    response has no record and no error, and its [total] is 0, so the
    recording is not in the denominator. *)
Lemma unresolved_recording_is_not_counted :
  mp4FilesOf [Scenario.recording] = [Scenario.recording] /\
  (exists n,
     tryFetchTranscriptFromDriveItem Scenario.lonely "rec-1"
       (name Scenario.recording) (Some (webUrl Scenario.recording)) 1
     = (Ret None, n)) /\
  exists body n,
    fetchAction Scenario.lonely 0 = (Ret (Ok200 body), n) /\
    transcripts body = [] /\ reported body = [] /\
    ~ (1 <= total body).
Proof.
  split; [reflexivity|]. split; [eexists; vm_compute; reflexivity|].
  do 2 eexists; split; [vm_compute; reflexivity|].
  repeat split. simpl; lia.
Qed.

(** * Further properties of the code *)

(** ** Names, extensions and titles *)

Section MoreStrings.

Lemma replace_end_prefix (p : list atom) (s : string) :
  startsWith s (replace_end p s) = true.
Proof.
  induction s as [|c s IH]; rewrite replace_end_unfold;
    destruct (match_to_end p _); try apply startsWith_nil.
  now rewrite startsWith_cons, Ascii.eqb_refl.
Qed.

(** X1.  The base name of a recording, in the resolver and in the scan, is a
    beginning of the file name: the normaliser only removes an end. *)
Theorem baseName_is_prefix (fileName : string) :
  startsWith fileName (baseName fileName) = true /\
  startsWith fileName (scanBaseName fileName) = true /\
  startsWith (scanBaseName fileName) (baseName fileName) = true /\
  String.length (baseName fileName) <= String.length fileName.
Proof.
  assert (S2 : startsWith fileName (scanBaseName fileName) = true).
  { unfold scanBaseName.
    eapply startsWith_trans; [apply replace_end_prefix | apply replace_end_prefix]. }
  assert (S3 : startsWith (scanBaseName fileName) (baseName fileName) = true).
  { unfold baseName, scanBaseName. apply replace_end_prefix. }
  assert (S1 : startsWith fileName (baseName fileName) = true).
  { eapply startsWith_trans; eassumption. }
  repeat split; try assumption.
  clear S2 S3. revert S1. generalize (baseName fileName) as b.
  induction fileName as [|c s IH]; intros [|e b] H; simpl; try lia.
  - discriminate H.
  - rewrite startsWith_cons in H. apply andb_true_iff in H as [_ H].
    specialize (IH b H). lia.
Qed.

(** X2.  The four rules of the matcher come to its last one: a name is
    accepted exactly when it ends in [.vtt] and contains the first token
    of the base name; so the test on the parent folder and the test on the
    Transcript(s) folder accept the same files. *)
Theorem matcher_is_first_token_rule (b : string) :
  (forall n, matches b n = endsWith n ".vtt" && includes n (firstToken b)) /\
  (forall f, parentCandidate b f = transcriptFolderCandidate b f).
Proof.
  assert (A : forall n, endsWith n ".vtt" = true ->
                        some (matchPatterns b n) = includes n (firstToken b)).
  { intros n E. destruct (includes n (firstToken b)) eqn:I.
    - unfold some, matchPatterns; simpl existsb. rewrite I, E; simpl.
      now rewrite !orb_true_r.
    - destruct (some (matchPatterns b n)) eqn:S; [|reflexivity].
      apply some_pattern_first_token in S. congruence. }
  split.
  - intros n. unfold matches. destruct (endsWith n ".vtt") eqn:E; [|reflexivity].
    simpl. now apply A.
  - intros f. unfold parentCandidate, transcriptFolderCandidate.
    destruct (endsWith (name f) ".vtt") eqn:E.
    + now rewrite (A _ E).
    + now rewrite !andb_false_r.
Qed.

Lemma includes_char_nil (c : ascii) : includes "" (String c "") = false.
Proof. reflexivity. Qed.

Lemma includes_char_cons (a c : ascii) (s : string) :
  includes (String a s) (String c "") = Ascii.eqb c a || includes s (String c "").
Proof.
  rewrite includes_unfold, startsWith_cons, startsWith_nil, andb_true_r. reflexivity.
Qed.

Lemma includes_char_app (c : ascii) (x y : string) :
  includes (x ++ String c y) (String c "") = true.
Proof.
  induction x as [|a x IH]; simpl append; rewrite includes_char_cons.
  - now rewrite Ascii.eqb_refl.
  - rewrite IH. apply orb_true_r.
Qed.

Lemma split_cons (c a : ascii) (s : string) :
  split c (String a s) =
  if Ascii.eqb a c then "" :: split c s
  else match split c s with
       | h :: t => String a h :: t
       | [] => [String a ""]
       end.
Proof. reflexivity. Qed.

Lemma split_without (c : ascii) (s : string) :
  includes s (String c "") = false -> split c s = [s].
Proof.
  induction s as [|a s IH]; intros H; [reflexivity|].
  rewrite includes_char_cons in H. apply orb_false_iff in H as [Ha Hs].
  rewrite split_cons, (Ascii.eqb_sym a c), Ha, (IH Hs). reflexivity.
Qed.

Lemma split_with (c : ascii) (s : string) :
  includes s (String c "") = true -> exists h x t, split c s = h :: x :: t.
Proof.
  induction s as [|a s IH]; intros H; [discriminate|].
  rewrite includes_char_cons in H. rewrite split_cons, (Ascii.eqb_sym a c).
  destruct (Ascii.eqb c a).
  - destruct (split c s) as [|x t] eqn:E; [destruct s; simpl in E|]; eauto.
    + discriminate.
    + destruct (Ascii.eqb a0 c); [discriminate|].
      destruct (split c s); discriminate.
  - destruct (IH H) as (h & x & t & ->). eauto.
Qed.

(** The last piece of a name with one more character in front. *)
Lemma pop_split_cons (c a : ascii) (s : string) :
  pop (split c (String a s)) =
  if negb (Ascii.eqb c a) && negb (includes s (String c ""))
  then String a s else pop (split c s).
Proof.
  rewrite split_cons, (Ascii.eqb_sym a c).
  destruct (includes s (String c "")) eqn:I.
  - rewrite andb_false_r. destruct (split_with c s I) as (h & x & t & ->).
    destruct (Ascii.eqb c a); reflexivity.
  - rewrite (split_without c s I). destruct (Ascii.eqb c a); reflexivity.
Qed.

Lemma pop_split_without_sep (c : ascii) (s : string) :
  includes (pop (split c s)) (String c "") = false.
Proof.
  induction s as [|a s IH]; [reflexivity|].
  rewrite pop_split_cons.
  destruct (Ascii.eqb c a) eqn:Ea; cbn [negb andb]; [exact IH|].
  destruct (includes s (String c "")) eqn:I; cbn [negb andb]; [exact IH|].
  now rewrite includes_char_cons, Ea, I.
Qed.

Lemma pop_split_decompose (c : ascii) (s : string) :
  includes s (String c "") = true ->
  exists stem, s = (stem ++ String c (pop (split c s)))%string.
Proof.
  induction s as [|a s IH]; intros H; [discriminate|].
  rewrite pop_split_cons. rewrite includes_char_cons in H.
  destruct (includes s (String c "")) eqn:I.
  - rewrite andb_false_r. destruct (IH eq_refl) as [stem E].
    exists (String a stem). simpl append. now rewrite <- E.
  - rewrite orb_false_r in H. rewrite H; cbn [negb andb].
    apply Ascii.eqb_eq in H; subst a.
    exists "". simpl append. now rewrite (split_without c s I).
Qed.

Lemma pop_split_compose (c : ascii) (stem ext : string) :
  includes ext (String c "") = false ->
  pop (split c (stem ++ String c ext)) = ext.
Proof.
  intros H. induction stem as [|a stem IH]; simpl append; rewrite pop_split_cons.
  - rewrite Ascii.eqb_refl; cbn [negb andb]. now rewrite (split_without c ext H).
  - now rewrite includes_char_app, andb_false_r.
Qed.

Lemma endsWith_inv (s suf : string) :
  endsWith s suf = true -> exists x, s = (x ++ suf)%string.
Proof.
  induction s as [|a s IH]; rewrite endsWith_unfold; intros H;
    apply orb_true_iff in H as [H|H]; try discriminate.
  - apply String.eqb_eq in H; subst. now exists "".
  - apply String.eqb_eq in H; subst. now exists "".
  - destruct (IH H) as [x ->]. now exists (String a x).
Qed.

Lemma extension_parts (n : string) :
  includes (extensionOf n) "." = false /\
  (includes n "." = true -> exists stem, n = (stem ++ "." ++ extensionOf n)%string) /\
  (includes n "." = false -> extensionOf n = "").
Proof.
  unfold extensionOf. destruct (includes n ".") eqn:I; repeat split;
    try discriminate; try reflexivity.
  - apply pop_split_without_sep.
  - intros _. exact (pop_split_decompose "." n I).
Qed.

(** X3.  The extension shown for a listed file is what follows the last dot of
    its name: it holds no dot, the name is a stem, a dot and the
    extension, and a name without a dot has the empty extension. *)
Theorem extensionOf_decomposes (n : string) :
  includes (extensionOf n) "." = false /\
  (includes n "." = true -> exists stem, n = (stem ++ "." ++ extensionOf n)%string) /\
  (includes n "." = false -> extensionOf n = "").
Proof. exact (extension_parts n). Qed.

Lemma extension_of_dotted (stem ext : string) :
  includes ext "." = false -> extensionOf (stem ++ "." ++ ext) = ext.
Proof.
  intros H. unfold extensionOf. simpl append.
  rewrite includes_char_app. now apply pop_split_compose.
Qed.

(** X4.  Whatever the stem, the extension of [stem.ext] is [ext] when [ext]
    holds no dot; so the files the scan takes for VTT, text or recording
    files are listed with the extensions [vtt], [txt], [docx] and [mp4]. *)
Theorem extensionOf_recovers (stem ext : string) :
  includes ext "." = false ->
  extensionOf (stem ++ "." ++ ext) = ext /\
  (forall i : ListedItem,
     endsWith (name (item i)) ("." ++ ext) = true ->
     FileInfo.extension (fileInfoOf i) = ext).
Proof.
  intros H. split; [now apply extension_of_dotted|].
  intros i E. apply endsWith_inv in E as [x E].
  unfold fileInfoOf; simpl. rewrite E. now apply extension_of_dotted.
Qed.

Lemma extensionOf_recovers_witness :
  extensionOf ("Weekly Sync" ++ "." ++ "vtt") = "vtt" /\
  FileInfo.extension
    (fileInfoOf (mkListed Scenario.recording 1024 (Some "video/mp4"))) = "mp4".
Proof.
  split.
  - exact (proj1 (extensionOf_recovers "Weekly Sync" "vtt" eq_refl)).
  - apply (proj2 (extensionOf_recovers "" "mp4" eq_refl)). reflexivity.
Defined.

Lemma titleOf_unfold (s : string) :
  titleOf s =
  if match_extension s then ""
  else match s with
       | EmptyString => ""
       | String c s' => String c (titleOf s')
       end.
Proof. destruct s; reflexivity. Qed.

Lemma all_chars_dotted (x y : string) :
  all_chars not_slash_dot (x ++ String "." y) = false.
Proof.
  induction x as [|a x IH]; simpl; [reflexivity|].
  rewrite IH. apply andb_false_r.
Qed.

Lemma all_chars_plain (e : string) :
  includes e "." = false -> includes e "/" = false ->
  all_chars not_slash_dot e = true.
Proof.
  induction e as [|a e IH]; [reflexivity|].
  rewrite !includes_char_cons. intros Hd Hs.
  apply orb_false_iff in Hd as [Hd1 Hd2]. apply orb_false_iff in Hs as [Hs1 Hs2].
  simpl. rewrite (IH Hd2 Hs2). unfold not_slash_dot.
  rewrite (Ascii.eqb_sym a "/"), (Ascii.eqb_sym a "."), Hd1, Hs1. reflexivity.
Qed.

Lemma all_chars_slashed (e : string) :
  includes e "/" = true -> all_chars not_slash_dot e = false.
Proof.
  induction e as [|a e IH]; [discriminate|].
  rewrite includes_char_cons. intros H. simpl.
  apply orb_true_iff in H as [H|H].
  - apply Ascii.eqb_eq in H; subst a. reflexivity.
  - rewrite (IH H). apply andb_false_r.
Qed.

Lemma match_extension_cons (c : ascii) (r : string) :
  match_extension (String c r) =
  Ascii.eqb c "." && negb (r =? "")%string && all_chars not_slash_dot r.
Proof.
  destruct r as [|d r]; simpl; [now rewrite andb_false_r|].
  now rewrite andb_true_r.
Qed.

Lemma titleOf_without_dot (n : string) :
  includes n "." = false -> titleOf n = n.
Proof.
  induction n as [|a n IH]; [reflexivity|].
  rewrite includes_char_cons. intros H. apply orb_false_iff in H as [Ha Hn].
  rewrite titleOf_unfold, match_extension_cons, (Ascii.eqb_sym a "."), Ha.
  simpl. now rewrite (IH Hn).
Qed.

(** [titleOf] removes a last extension that is not empty and holds no
    slash, whatever stands before it. *)
Lemma titleOf_strips (stem ext : string) :
  ext <> "" -> all_chars not_slash_dot ext = true ->
  titleOf (stem ++ "." ++ ext) = stem.
Proof.
  intros Hne Hall. simpl append.
  induction stem as [|a stem IH]; simpl append; rewrite titleOf_unfold.
  - rewrite match_extension_cons, Hall.
    destruct ext; [contradiction | reflexivity].
  - rewrite match_extension_cons, all_chars_dotted, andb_false_r. now rewrite IH.
Qed.

(** [titleOf] leaves a name whose last extension is empty or holds a
    slash as it is. *)
Lemma titleOf_keeps (stem ext : string) :
  includes ext "." = false ->
  ext = "" \/ includes ext "/" = true ->
  titleOf (stem ++ "." ++ ext) = (stem ++ "." ++ ext)%string.
Proof.
  intros Hd Hbad. simpl append.
  induction stem as [|a stem IH]; simpl append; rewrite titleOf_unfold.
  - rewrite match_extension_cons, <- andb_assoc.
    replace (negb (ext =? "")%string && all_chars not_slash_dot ext) with false.
    + rewrite andb_false_r. now rewrite (titleOf_without_dot ext Hd).
    + destruct Hbad as [->|H]; [reflexivity|].
      now rewrite (all_chars_slashed ext H), andb_false_r.
  - rewrite match_extension_cons, all_chars_dotted, andb_false_r. now rewrite IH.
Qed.

(** X5.  The title stored for a file and the extension listed for it split the
    name: when the extension is not empty and holds no slash the name is
    the title, a dot and the extension; in every other case (no dot, a
    dot at the very end, a slash after the last dot) the title is the
    whole name. *)
Theorem title_and_extension (n : string) :
  let e := extensionOf n in
  if includes n "." && negb (e =? "")%string && negb (includes e "/")
  then n = (titleOf n ++ "." ++ e)%string
  else titleOf n = n.
Proof.
  destruct (extension_parts n) as (Hnodot & Hdec & Hnone).
  intros e; subst e.
  destruct (includes n ".") eqn:I; [|now apply titleOf_without_dot].
  destruct (Hdec eq_refl) as [stem E].
  set (e := extensionOf n) in *. simpl andb.
  destruct (e =? "")%string eqn:Ee; simpl.
  - apply String.eqb_eq in Ee. rewrite E at 1 2.
    apply titleOf_keeps; auto.
  - destruct (includes e "/") eqn:Es; simpl.
    + rewrite E at 1 2. apply titleOf_keeps; auto.
    + rewrite E at 2. rewrite titleOf_strips; [exact E| |now apply all_chars_plain].
      intros ->. discriminate Ee.
Qed.

End MoreStrings.

(** ** What the resolver returns *)

Section ResolverResults.

Variable w : World.
Variables (fileName : string) (video : option string).

Lemma parentCandidate_vtt (b : string) (f : DriveItem) :
  parentCandidate b f = true -> isVttFile f = true.
Proof.
  unfold parentCandidate, isVttFile. intros H.
  now apply andb_true_iff in H as [H _].
Qed.

Lemma transcriptFolderCandidate_vtt (b : string) (f : DriveItem) :
  transcriptFolderCandidate b f = true -> isVttFile f = true.
Proof.
  unfold transcriptFolderCandidate, isVttFile. intros H.
  now apply andb_true_iff in H as [H _].
Qed.

Lemma post_returnFirst_vtt (cond : DriveItem -> bool) (items : list DriveItem) :
  (forall f, cond f = true -> isVttFile f = true) ->
  post (returnFirst w cond fileName video items) (found (fromVttFile w fileName video)).
Proof.
  intros Hcond. induction items as [|f rest IH]; simpl; [apply post_none|].
  destruct (cond f) eqn:C; [|exact IH].
  apply post_bind. intros n c n1 E. apply post_ret.
  unfold fetchText in E; inversion E as [[D N]].
  exists f, n, c. auto.
Qed.

Ltac vtt_step :=
  first [ apply post_none
        | apply post_throw
        | apply post_returnFirst_vtt;
            first [ now auto | apply parentCandidate_vtt
                  | apply transcriptFolderCandidate_vtt ]
        | apply post_found_orElse
        | apply post_bind_any; intros ? ].

Lemma post_resolver_vtt (driveItemId : string) :
  post (tryFetchTranscriptFromDriveItem w driveItemId fileName video)
       (found (fromVttFile w fileName video)).
Proof.
  apply post_tryCatch; [|intros e; apply post_none].
  apply post_found_orElse.
  - apply post_tryCatch; [|intros e; apply post_none].
    apply post_found_orElse.
    + apply post_bind_any; intros [value|]; vtt_step.
    + repeat vtt_step.
  - unfold afterStream.
    apply post_bind_any; intros [parentReference|]; [|apply post_none].
    apply post_bind_any; intros parentId.
    apply post_found_orElse.
    + apply post_bind_any; intros [value|]; [|apply post_none].
      unfold parentFolderStrategies, parentRescan.
      apply post_found_orElse; [vtt_step|].
      apply post_found_orElse.
      * unfold matchingSubfolder.
        destruct (find _ (orEmpty value)); [|apply post_none].
        apply post_bind_any; intros [[files|]|]; vtt_step.
      * unfold transcriptsSubfolder.
        destruct (find _ (orEmpty value)); [|apply post_none].
        apply post_bind_any; intros [v|]; vtt_step.
    + unfold afterParent. do 2 vtt_step.
      generalize (searchQueries (baseName fileName)) as queries.
      induction queries as [|q rest IH]; simpl; [apply post_none|].
      apply post_found_orElse; [|exact IH].
      apply post_bind_any; intros [v|]; vtt_step.
Qed.

End ResolverResults.

(** X6.  Whatever strategy found it, a transcript the resolver returns is a
    file whose name ends in [.vtt], holds the text of a download that
    succeeded, and carries the file name and the URL of the recording it
    was asked for. *)
Theorem resolver_returns_downloaded_vtt (w : World) (driveItemId fileName : string)
    (video : option string) (n n' : nat) (t : TranscriptFile) :
  tryFetchTranscriptFromDriveItem w driveItemId fileName video n = (Ret (Some t), n') ->
  exists f k c,
    isFile f = true /\ endsWith (name f) ".vtt" = true /\
    download w k (downloadUrl f) = Ret c /\
    t = transcriptOf f c video (Some fileName).
Proof.
  intros E.
  destruct (post_resolver_vtt w fileName video driveItemId _ _ _ E)
    as (f & k & c & Hvtt & D & ->).
  apply andb_true_iff in Hvtt as [Hf Hn]. now exists f, k, c.
Qed.

Lemma resolver_returns_downloaded_vtt_witness :
  exists f k c,
    isFile f = true /\ endsWith (name f) ".vtt" = true /\
    download Scenario.nested k (downloadUrl f) = Ret c /\
    transcriptOf Scenario.zzz "WEBVTT https://dl.example/vtt-9"
      (Some (webUrl Scenario.recording)) (Some (name Scenario.recording))
    = transcriptOf f c (Some (webUrl Scenario.recording)) (Some (name Scenario.recording)).
Proof.
  apply (resolver_returns_downloaded_vtt Scenario.nested "rec-1"
           (name Scenario.recording) (Some (webUrl Scenario.recording)) 0 7).
  reflexivity.
Defined.

(** X7.  The stream lookup comes first and wins: when the recording has a
    child ending in [.vtt] whose download succeeds, the resolver returns
    the first such child after two calls and asks nothing else. *)
Theorem stream_child_wins (w : World) (driveItemId fileName : string)
    (video : option string) (n : nat) (value : option (list DriveItem))
    (f : DriveItem) (c : string) :
  children w n driveItemId = Body value ->
  find isVttFile (orEmpty value) = Some f ->
  download w (S n) (downloadUrl f) = Ret c ->
  tryFetchTranscriptFromDriveItem w driveItemId fileName video n
  = (Ret (Some (transcriptOf f c video (Some fileName))), S (S n)).
Proof.
  intros Hkids Hfirst Hdl.
  unfold tryFetchTranscriptFromDriveItem. apply tryCatch_run.
  apply fallThrough_some.
  unfold tryFetchTranscriptFromStream. apply tryCatch_run.
  apply fallThrough_some.
  rewrite (bind_run _ _ n (Some value) (S n)).
  - now apply returnFirst_find.
  - exact (fetchOk_body (fun k => children w k driveItemId) n value Hkids).
Qed.

(** ** What the scan returns *)

Lemma post_conj {A} (m : M A) (P Q : A -> Prop) :
  post m P -> post m Q -> post m (fun a => P a /\ Q a).
Proof. intros HP HQ n a n' E; split; [exact (HP _ _ _ E) | exact (HQ _ _ _ E)]. Qed.

(** A loop raises a measure by at most the sum of what its rounds may add. *)
Lemma post_forOf_measure {S A} (body : S -> A -> M S) (mu : S -> nat)
    (cost : A -> nat) (xs : list A) :
  (forall st x, post (body st x) (fun st' => mu st' <= mu st + cost x)) ->
  forall st, post (forOf body xs st)
               (fun st' => mu st' <= mu st + list_sum (map cost xs)).
Proof.
  intros H. induction xs as [|x xs IH]; intros st; simpl.
  - apply post_ret. lia.
  - apply post_bind. eapply post_weaken; [apply H|].
    intros st1 H1. eapply post_weaken; [apply IH|].
    intros st2 H2; simpl in *. lia.
Qed.

Lemma list_sum_ones {A} (xs : list A) : list_sum (map (fun _ => 1) xs) = length xs.
Proof. induction xs as [|x xs IH]; simpl; [reflexivity | now rewrite IH]. Qed.

Lemma list_sum_zeros {A} (xs : list A) : list_sum (map (fun _ => 0) xs) = 0.
Proof. induction xs as [|x xs IH]; simpl; [reflexivity | exact IH]. Qed.

Lemma list_sum_filter {A} (p : A -> bool) (xs : list A) :
  list_sum (map (fun x => if p x then 1 else 0) xs) = length (filter p xs).
Proof.
  induction xs as [|x xs IH]; simpl; [reflexivity|].
  destruct (p x); simpl; now rewrite IH.
Qed.

Lemma videos_push (ts : list TranscriptFile) (t : TranscriptFile) :
  length (filter hasVideo (ts ++ [t]))
  = length (filter hasVideo ts) + (if hasVideo t then 1 else 0).
Proof.
  rewrite filter_app, length_app. simpl. now destruct (hasVideo t).
Qed.

Section ScanResults.

Variable w : World.

Lemma vttStep_counts (st : ScanState) (f : DriveItem) :
  post (vttStep w st f)
    (fun st' => length (fst st') <= length (fst st) + 1 /\
                length (filter hasVideo (fst st'))
                <= length (filter hasVideo (fst st)) + 0).
Proof.
  destruct st as [ts p]; unfold vttStep.
  apply post_tryCatch; [|intros e; apply post_ret; simpl; lia].
  apply post_bind_any; intros c. apply post_ret; simpl.
  rewrite length_app, videos_push; simpl. lia.
Qed.

Lemma mp4Step_counts (vttFiles : list DriveItem) (st : ScanState) (m : DriveItem) :
  post (mp4Step w vttFiles st m)
    (fun st' => length (fst st') <= length (fst st) + 1 /\
                length (filter hasVideo (fst st'))
                <= length (filter hasVideo (fst st)) + 1).
Proof.
  destruct st as [ts p]; unfold mp4Step; cbv zeta.
  apply post_tryCatch; [|intros e; apply post_ret; simpl; lia].
  destruct (has p _); [apply post_ret; simpl; lia|].
  assert (R : post
    (transcriptFromDriveItem <-
       tryFetchTranscriptFromDriveItem w (id m) (name m) (Some (webUrl m)) ;;
     match transcriptFromDriveItem with
     | Some t => ret (ts ++ [t], p)
     | None => ret (ts, p)
     end)
    (fun st' => length (fst st') <= length (fst (ts, p)) + 1 /\
                length (filter hasVideo (fst st'))
                <= length (filter hasVideo (fst (ts, p))) + 1)).
  { apply post_bind_any; intros [t|]; apply post_ret; simpl; [|lia].
    rewrite length_app, videos_push; simpl. destruct (hasVideo t); lia. }
  destruct (find _ vttFiles); [|exact R].
  destruct (negb _); [|exact R].
  apply post_bind_any; intros c. apply post_ret; simpl.
  rewrite length_app, videos_push; simpl. lia.
Qed.

Lemma textStep_counts (ts : list TranscriptFile) (f : DriveItem) :
  post (textStep w ts f)
    (fun ts' => length ts' <= length ts + (if isTextFile f then 1 else 0) /\
                length (filter hasVideo ts') <= length (filter hasVideo ts) + 0).
Proof.
  unfold textStep. destruct (isTextFile f); [|apply post_ret; lia].
  apply post_tryCatch; [|intros e; apply post_ret; lia].
  apply post_bind_any; intros c. apply post_ret.
  rewrite length_app, videos_push; simpl. lia.
Qed.

End ScanResults.

(** X10.  The scan returns at most one transcript for each VTT file, each
    recording and each text file of the folder, and at most as many
    transcripts naming a video as the folder has recordings. *)
Theorem scan_counts (w : World) (allFiles : list DriveItem) (n n' : nat)
    (ts : list TranscriptFile) :
  scan w allFiles n = (Ret ts, n') ->
  length ts <= length (vttFilesOf allFiles) + length (mp4FilesOf allFiles)
               + length (filter isTextFile allFiles) /\
  length (filter hasVideo ts) <= length (mp4FilesOf allFiles).
Proof.
  revert n ts n'.
  change (post (scan w allFiles)
            (fun ts =>
               length ts <= length (vttFilesOf allFiles) + length (mp4FilesOf allFiles)
                            + length (filter isTextFile allFiles) /\
               length (filter hasVideo ts) <= length (mp4FilesOf allFiles))).
  unfold scan; cbv zeta.
  apply post_bind. eapply post_weaken.
  { apply post_conj.
    - apply (post_forOf_measure _ (fun st => length (fst st)) (fun _ => 1)).
      intros st x. eapply post_weaken; [apply vttStep_counts | cbv beta; tauto].
    - apply (post_forOf_measure _ (fun st => length (filter hasVideo (fst st)))
               (fun _ => 0)).
      intros st x. eapply post_weaken; [apply vttStep_counts | cbv beta; tauto]. }
  intros st1 [L1 V1]. rewrite list_sum_ones in L1. rewrite list_sum_zeros in V1.
  simpl in L1, V1.
  apply post_bind. eapply post_weaken.
  { apply post_conj.
    - apply (post_forOf_measure _ (fun st => length (fst st)) (fun _ => 1)).
      intros st x. eapply post_weaken; [apply mp4Step_counts | cbv beta; tauto].
    - apply (post_forOf_measure _ (fun st => length (filter hasVideo (fst st)))
               (fun _ => 1)).
      intros st x. eapply post_weaken; [apply mp4Step_counts | cbv beta; tauto]. }
  intros st2 [L2 V2]. rewrite list_sum_ones in L2, V2.
  eapply post_weaken.
  { apply post_conj.
    - apply (post_forOf_measure _ (fun ts => length ts)
               (fun f => if isTextFile f then 1 else 0)).
      intros st x. eapply post_weaken; [apply textStep_counts | cbv beta; tauto].
    - apply (post_forOf_measure _ (fun ts => length (filter hasVideo ts)) (fun _ => 0)).
      intros st x. eapply post_weaken; [apply textStep_counts | cbv beta; tauto]. }
  intros ts [L3 V3]. rewrite list_sum_filter in L3. rewrite list_sum_zeros in V3.
  lia.
Qed.

Lemma scan_counts_witness :
  length [transcriptOf (Scenario.fileNamed "vtt-1" "Weekly Sync.vtt")
            "WEBVTT https://dl.example/vtt-1" None None]
  <= length (vttFilesOf Scenario.weekly) + length (mp4FilesOf Scenario.weekly)
     + length (filter isTextFile Scenario.weekly) /\
  length (filter hasVideo
            [transcriptOf (Scenario.fileNamed "vtt-1" "Weekly Sync.vtt")
               "WEBVTT https://dl.example/vtt-1" None None])
  <= length (mp4FilesOf Scenario.weekly).
Proof.
  apply (scan_counts (Scenario.quiet Scenario.weekly) Scenario.weekly 0 1).
  reflexivity.
Defined.

Lemma scan_record_shapes (w : World) (allFiles : list DriveItem) (n n' : nat)
    (ts : list TranscriptFile) :
  scan w allFiles n = (Ret ts, n') ->
  forall t, In t ts ->
    knownExtension (t_name t) /\
    ((videoFileName t = None /\ videoUrl t = None) \/
     (exists mp4, In mp4 (mp4FilesOf allFiles) /\
        videoFileName t = Some (name mp4) /\ videoUrl t = Some (webUrl mp4))).
Proof.
  intros Hscan t Ht.
  pose proof (scan_origin _ _ _ _ _ Hscan) as Hall.
  rewrite Forall_forall in Hall.
  assert (V : forall f, In f (vttFilesOf allFiles) -> endsWith (name f) ".vtt" = true).
  { intros f Hf. unfold vttFilesOf in Hf. apply filter_In in Hf as [_ Hf].
    now apply andb_true_iff in Hf as [_ Hf]. }
  destruct (Hall t Ht) as [f k c Hf _ ->|mp4 f k c Hm Hf _ _ ->|mp4 k k' Hm E
                          |f k c _ Htext _ ->]; simpl.
  - split; [left; auto | left; auto].
  - split; [left; auto | right; eauto].
  - destruct (post_resolver_vtt w _ _ _ _ _ _ E) as (f & k0 & c & Hvtt & _ & ->).
    apply andb_true_iff in Hvtt as [_ Hvtt]. simpl.
    split; [left; exact Hvtt | right; eauto].
  - split; [|left; auto].
    unfold isTextFile in Htext. apply andb_true_iff in Htext as [_ Htext].
    apply orb_true_iff in Htext as [H|H]; [right; left | right; right]; exact H.
Qed.

(** X11.  Every transcript of the scan has a name ending in [.vtt], [.txt] or
    [.docx]; it either names no video at all, or carries the file name
    and the URL of one recording of the folder, both together. *)
Theorem scan_names_and_videos (w : World) (allFiles : list DriveItem) (n n' : nat)
    (ts : list TranscriptFile) :
  scan w allFiles n = (Ret ts, n') ->
  forall t, In t ts ->
    knownExtension (t_name t) /\
    ((videoFileName t = None /\ videoUrl t = None) \/
     (exists mp4, In mp4 (mp4FilesOf allFiles) /\
        videoFileName t = Some (name mp4) /\ videoUrl t = Some (webUrl mp4))).
Proof. exact (scan_record_shapes w allFiles n n' ts). Qed.

Lemma scan_names_and_videos_witness :
  knownExtension "Weekly Sync.vtt" /\
  ((@None string = None /\ @None string = None) \/
   (exists mp4, In mp4 (mp4FilesOf Scenario.weekly) /\
      None = Some (name mp4) /\ None = Some (webUrl mp4))).
Proof.
  apply (scan_names_and_videos (Scenario.quiet Scenario.weekly) Scenario.weekly 0 1
           _ eq_refl
           (transcriptOf (Scenario.fileNamed "vtt-1" "Weekly Sync.vtt")
        "WEBVTT https://dl.example/vtt-1" None None)).
  left; reflexivity.
Defined.

(** X12.  The title stored for a transcript of the scan is its file name without
    the ending [.vtt], [.txt] or [.docx]. *)
Theorem stored_title_drops_extension (w : World) (allFiles : list DriveItem)
    (n n' : nat) (ts : list TranscriptFile) :
  scan w allFiles n = (Ret ts, n') ->
  forall t, In t ts ->
    exists e, In e [".vtt"; ".txt"; ".docx"] /\
      Payload.file_name (upsertPayload t)
      = (Payload.title (upsertPayload t) ++ e)%string.
Proof.
  intros Hscan t Ht.
  destruct (proj1 (scan_record_shapes w allFiles n n' ts Hscan t Ht)) as [H|[H|H]];
    apply endsWith_inv in H as [x E]; unfold upsertPayload; simpl; rewrite E.
  - exists ".vtt". split; [simpl; auto|].
    pose proof (titleOf_strips x "vtt") as T; simpl append in T.
    rewrite T; [reflexivity | discriminate | reflexivity].
  - exists ".txt". split; [simpl; auto|].
    pose proof (titleOf_strips x "txt") as T; simpl append in T.
    rewrite T; [reflexivity | discriminate | reflexivity].
  - exists ".docx". split; [simpl; auto|].
    pose proof (titleOf_strips x "docx") as T; simpl append in T.
    rewrite T; [reflexivity | discriminate | reflexivity].
Qed.

(** ** How many calls are made *)

Section Calls.

Context {A B : Type}.

Lemma within_ret (a : A) : within 0 (ret a).
Proof. intros n; simpl; lia. Qed.

Lemma within_throw (e : string) : within 0 (@throw A e).
Proof. intros n; simpl; lia. Qed.

Lemma within_le (a b : nat) (m : M A) : a <= b -> within a m -> within b m.
Proof. intros L H n; destruct (H n); lia. Qed.

Lemma within_bind (a b : nat) (m : M A) (k : A -> M B) :
  within a m -> (forall x, within b (k x)) -> within (a + b) (bind m k).
Proof.
  intros Hm Hk n. unfold bind. specialize (Hm n).
  destruct (m n) as [[x|e] n1]; simpl in *; [|lia].
  specialize (Hk x n1). lia.
Qed.

Lemma within_tryCatch (a b : nat) (m : M A) (h : string -> M A) :
  within a m -> (forall e, within b (h e)) -> within (a + b) (tryCatch m h).
Proof.
  intros Hm Hh n. unfold tryCatch. specialize (Hm n).
  destruct (m n) as [[x|e] n1]; simpl in *; [lia|].
  specialize (Hh e n1). lia.
Qed.

Lemma within_fetchOk (call : nat -> reply A) : within 1 (fetchOk call).
Proof. intros n; unfold fetchOk; destruct (call n); simpl; lia. Qed.

Lemma within_fetchAnswer (call : nat -> answer A) : within 1 (fetchAnswer call).
Proof. intros n; unfold fetchAnswer; destruct (call n); simpl; lia. Qed.

Lemma within_call (f : nat -> outcome A) : within 1 (fun n => (f n, S n)).
Proof. intros n; simpl; lia. Qed.

Lemma spends_le (a b a' b' : nat) (m : M (option A)) :
  a <= a' -> b <= b' -> spends a b m -> spends a' b' m.
Proof.
  intros La Lb H n. destruct (H n) as [H1 H2]. split; [exact H1|].
  destruct (fst (m n)) as [[x|]|e]; lia.
Qed.

Lemma spends_ret (r : option A) : spends 0 0 (ret r).
Proof. intros n; simpl; split; [lia|]. destruct r; lia. Qed.

Lemma spends_throw (e : string) : spends 0 0 (@throw (option A) e).
Proof. intros n; simpl; lia. Qed.

Lemma spends_within (a b : nat) (m : M (option A)) :
  spends a b m -> within (Nat.max a b) m.
Proof.
  intros H n. destruct (H n) as [H1 H2]. split; [exact H1|].
  destruct (fst (m n)) as [[x|]|e]; lia.
Qed.

(** A call, then code that may return. *)
Lemma spends_bind (c a b : nat) (m : M B) (k : B -> M (option A)) :
  within c m -> (forall x, spends a b (k x)) -> spends (c + a) (c + b) (bind m k).
Proof.
  intros Hm Hk n. unfold bind. specialize (Hm n).
  destruct (m n) as [[x|e] n1]; simpl in *; [|lia].
  destruct (Hk x n1) as [H1 H2]. split; [lia|].
  destruct (fst (k x n1)) as [[y|]|e]; lia.
Qed.

Lemma spends_orElse (a1 b1 a2 b2 : nat) (m k : M (option A)) :
  spends a1 b1 m -> spends a2 b2 k ->
  spends (a1 + a2) (Nat.max b1 (a1 + b2)) (m orElse k).
Proof.
  intros Hm Hk n. unfold fallThrough, bind. destruct (Hm n) as [H1 H2].
  destruct (m n) as [[[x|]|e] n1]; simpl in *; try lia.
  destruct (Hk n1) as [H3 H4]. split; [lia|].
  destruct (fst (k n1)) as [[y|]|e]; lia.
Qed.

(** A [catch] that answers null turns what was thrown into falling through. *)
Lemma spends_tryCatch (a b : nat) (m : M (option A)) :
  spends a b m -> spends (Nat.max a b) b (tryCatch m (fun _ => ret None)).
Proof.
  intros H n. unfold tryCatch. destruct (H n) as [H1 H2].
  destruct (m n) as [[[x|]|e] n1]; simpl in *; lia.
Qed.

End Calls.

Lemma within_forOf {S A} (body : S -> A -> M S) (cost : A -> nat) (xs : list A) :
  (forall st x, within (cost x) (body st x)) ->
  forall st, within (list_sum (map cost xs)) (forOf body xs st).
Proof.
  intros H. induction xs as [|x xs IH]; intros st; simpl.
  - apply within_ret.
  - apply within_bind; [apply H | exact IH].
Qed.

Section ResolverCalls.

Variable w : World.
Variables (driveItemId fileName : string) (video : option string).

Lemma spends_returnFirst (cond : DriveItem -> bool) (items : list DriveItem) :
  spends 0 1 (returnFirst w cond fileName video items).
Proof.
  induction items as [|f rest IH]; simpl.
  - eapply spends_le; [| |apply spends_ret]; lia.
  - destruct (cond f); [|exact IH].
    intros n. unfold bind, fetchText.
    destruct (download w n (downloadUrl f)); simpl; lia.
Qed.

(** A listing and the loop over what it holds. *)
Lemma spends_listing {A} (call : nat -> reply A)
    (k : option A -> M (option TranscriptFile)) :
  (forall x, spends 0 1 (k x)) -> spends 1 2 (bind (fetchOk call) k).
Proof. intros H. apply (spends_bind 1 0 1); [apply within_fetchOk | exact H]. Qed.

Lemma spends_none_01 : spends 0 1 (@ret (option TranscriptFile) None).
Proof. eapply spends_le; [| |apply spends_ret]; lia. Qed.

Lemma spends_throw_01 (e : string) : spends 0 1 (@throw (option TranscriptFile) e).
Proof. eapply spends_le; [| |apply spends_throw]; lia. Qed.

Lemma spends_stream :
  spends 3 3 (tryFetchTranscriptFromStream w driveItemId fileName video).
Proof.
  unfold tryFetchTranscriptFromStream.
  eapply spends_le; [| |apply spends_tryCatch]; [| |
    apply (spends_orElse 1 2 2 2)]; [lia | lia | |].
  - apply spends_listing. intros [value|];
      [apply spends_returnFirst | apply spends_none_01].
  - apply (spends_bind 1 1 1); [apply within_fetchOk|]. intros _.
    apply (spends_bind 1 0 0); [apply within_fetchOk|]. intros _.
    apply spends_ret.
Qed.

Lemma spends_searchLoop (queries : list string) :
  spends (length queries) (length queries + 1)
    (searchLoop w fileName video queries).
Proof.
  induction queries as [|q rest IH]; simpl.
  - eapply spends_le; [| |apply spends_ret]; lia.
  - eapply spends_le;
      [| |apply (spends_orElse 1 2 (length rest) (length rest + 1))];
      [lia | lia | | exact IH].
    apply spends_listing. intros [value|];
      [apply spends_returnFirst | apply spends_none_01].
Qed.

Lemma spends_parentFolderStrategies (allItems : list DriveItem) :
  spends 2 3 (parentFolderStrategies w fileName video allItems).
Proof.
  unfold parentFolderStrategies, parentRescan.
  eapply spends_le; [| |apply (spends_orElse 0 1 2 3)];
    [lia | lia | apply spends_returnFirst |].
  eapply spends_le; [| |apply (spends_orElse 1 2 1 2)]; [lia | lia | |].
  - unfold matchingSubfolder. destruct (find _ allItems).
    + apply spends_listing. intros [[files|]|];
        [apply spends_returnFirst | apply spends_throw_01 | apply spends_none_01].
    + eapply spends_le; [| |apply spends_ret]; lia.
  - unfold transcriptsSubfolder. destruct (find _ allItems).
    + apply spends_listing. intros [value|];
        [apply spends_returnFirst | apply spends_none_01].
    + eapply spends_le; [| |apply spends_ret]; lia.
Qed.

Lemma spends_afterParent :
  spends 6 7 (afterParent w driveItemId fileName video).
Proof.
  unfold afterParent.
  apply (spends_bind 1 5 6); [apply within_fetchOk|]. intros _.
  apply (spends_bind 1 4 5); [apply within_fetchOk|]. intros _.
  exact (spends_searchLoop (searchQueries (baseName fileName))).
Qed.

Lemma spends_afterStream :
  spends 10 11 (afterStream w driveItemId fileName video).
Proof.
  unfold afterStream.
  apply (spends_bind 1 9 10); [apply within_fetchOk|].
  intros [parentReference|]; [|eapply spends_le; [| |apply spends_ret]; lia].
  apply (spends_bind 0 9 10).
  { destruct parentReference; [apply within_ret | apply within_throw]. }
  intros parentId.
  eapply spends_le; [| |apply (spends_orElse 3 4 6 7)];
    [lia | lia | | apply spends_afterParent].
  apply (spends_bind 1 2 3); [apply within_fetchOk|].
  intros [value|]; [apply spends_parentFolderStrategies|].
  eapply spends_le; [| |apply spends_ret]; lia.
Qed.

Lemma within_resolver :
  within 14 (tryFetchTranscriptFromDriveItem w driveItemId fileName video).
Proof.
  unfold tryFetchTranscriptFromDriveItem.
  eapply within_le; [|apply spends_within, spends_tryCatch,
                        (spends_orElse 3 3 10 11);
                        [apply spends_stream | apply spends_afterStream]].
  lia.
Qed.

End ResolverCalls.

Section ScanCalls.

Variable w : World.

Lemma within_vttStep (st : ScanState) (f : DriveItem) : within 1 (vttStep w st f).
Proof.
  destruct st as [ts p]; unfold vttStep.
  apply (within_tryCatch 1 0); [|intros e; apply within_ret].
  apply (within_bind 1 0); [apply within_call | intros c; apply within_ret].
Qed.

Lemma within_mp4Step (vttFiles : list DriveItem) (st : ScanState) (m : DriveItem) :
  within 14 (mp4Step w vttFiles st m).
Proof.
  destruct st as [ts p]; unfold mp4Step; cbv zeta.
  apply (within_tryCatch 14 0); [|intros e; apply within_ret].
  destruct (has p _); [eapply within_le; [|apply within_ret]; lia|].
  assert (R : within 14
    (transcriptFromDriveItem <-
       tryFetchTranscriptFromDriveItem w (id m) (name m) (Some (webUrl m)) ;;
     match transcriptFromDriveItem with
     | Some t => ret (ts ++ [t], p)
     | None => ret (ts, p)
     end)).
  { apply (within_bind 14 0); [apply within_resolver|].
    intros [t|]; apply within_ret. }
  destruct (find _ vttFiles); [|exact R].
  destruct (negb _); [|exact R].
  eapply within_le; [|apply (within_bind 1 0);
                        [apply within_call | intros c; apply within_ret]].
  lia.
Qed.

Lemma within_textStep (ts : list TranscriptFile) (f : DriveItem) :
  within (if isTextFile f then 1 else 0) (textStep w ts f).
Proof.
  unfold textStep. destruct (isTextFile f); [|apply within_ret].
  apply (within_tryCatch 1 0); [|intros e; apply within_ret].
  apply (within_bind 1 0); [apply within_call | intros c; apply within_ret].
Qed.

End ScanCalls.

(** X8.  The resolver makes at most fourteen calls for one recording, whatever
    the services answer, and there are answers for which it makes all
    fourteen. *)
Theorem resolver_makes_at_most_14_calls :
  (forall (w : World) (driveItemId fileName : string) (video : option string) (n : nat),
     n <= snd (tryFetchTranscriptFromDriveItem w driveItemId fileName video n)
     /\ snd (tryFetchTranscriptFromDriveItem w driveItemId fileName video n) <= n + 14) /\
  (exists (w : World) (driveItemId fileName : string) (video : option string),
     snd (tryFetchTranscriptFromDriveItem w driveItemId fileName video 0) = 14).
Proof.
  split.
  - intros w driveItemId fileName video n. apply within_resolver.
  - exists Example.thorough, "rec-1", (name Scenario.recording), None. reflexivity.
Qed.

(** X9.  After the listing of the folder, one scan makes at most one call for
    each VTT file, fourteen for each recording and one for each text
    file: no request is repeated without bound. *)
Theorem scan_makes_bounded_calls (w : World) (allFiles : list DriveItem) (n : nat) :
  n <= snd (scan w allFiles n) /\
  snd (scan w allFiles n)
  <= n + (length (vttFilesOf allFiles) + 14 * length (mp4FilesOf allFiles)
          + length (filter isTextFile allFiles)).
Proof.
  assert (M14 : forall xs : list DriveItem,
            list_sum (map (fun _ => 14) xs) = 14 * length xs).
  { induction xs as [|x xs IH]; simpl; [reflexivity | rewrite IH; lia]. }
  revert n. change (within (length (vttFilesOf allFiles)
                            + 14 * length (mp4FilesOf allFiles)
                            + length (filter isTextFile allFiles)) (scan w allFiles)).
  unfold scan; cbv zeta.
  rewrite <- Nat.add_assoc.
  apply within_bind.
  - rewrite <- (list_sum_ones (vttFilesOf allFiles)).
    apply within_forOf. intros st x. apply within_vttStep.
  - intros st1. apply within_bind.
    + rewrite <- M14. apply within_forOf. intros st x. apply within_mp4Step.
    + intros st2. rewrite <- list_sum_filter.
      apply within_forOf. intros ts x. apply within_textStep.
Qed.

Lemma stream_child_wins_witness :
  tryFetchTranscriptFromDriveItem Example.streamed "rec-1" (name Scenario.recording)
    (Some (webUrl Scenario.recording)) 0
  = (Ret (Some (transcriptOf (Scenario.fileNamed "vtt-1" "Weekly Sync.vtt")
                  "WEBVTT https://dl.example/vtt-1"
                  (Some (webUrl Scenario.recording)) (Some (name Scenario.recording)))),
     2).
Proof.
  apply (stream_child_wins Example.streamed "rec-1" (name Scenario.recording)
           (Some (webUrl Scenario.recording)) 0
           (Some [Scenario.fileNamed "vtt-1" "Weekly Sync.vtt"])
           (Scenario.fileNamed "vtt-1" "Weekly Sync.vtt"));
    reflexivity.
Defined.

Lemma stored_title_drops_extension_witness :
  exists e, In e [".vtt"; ".txt"; ".docx"] /\
    "Weekly Sync.vtt" = ("Weekly Sync" ++ e)%string.
Proof.
  apply (stored_title_drops_extension (Scenario.quiet Scenario.weekly)
           Scenario.weekly 0 1 _ eq_refl
           (transcriptOf (Scenario.fileNamed "vtt-1" "Weekly Sync.vtt")
        "WEBVTT https://dl.example/vtt-1" None None)).
  left; reflexivity.
Defined.

Lemma extensionOf_decomposes_witness :
  includes (extensionOf "Q3.plan.docx") "." = false /\
  (exists stem, "Q3.plan.docx" = (stem ++ "." ++ extensionOf "Q3.plan.docx")%string) /\
  extensionOf "README" = "".
Proof.
  destruct (extensionOf_decomposes "Q3.plan.docx") as (H1 & H2 & _).
  destruct (extensionOf_decomposes "README") as (_ & _ & H3).
  split; [exact H1|]. split; [apply H2; reflexivity | apply H3; reflexivity].
Defined.

(** ** Folders without recordings, and the OneDrive pass *)

Section Standalone.

Variable w : World.

Lemma vttOnlyStep_skip (ts : list TranscriptFile) (f : DriveItem) (n : nat) :
  isVttFile f = false -> vttOnlyStep w ts f n = (Ret ts, n).
Proof. unfold vttOnlyStep, isVttFile. now intros ->. Qed.

Lemma vttOnlyStep_stable (ts : list TranscriptFile) (f : DriveItem) (n : nat) :
  stable w -> isVttFile f = true ->
  vttOnlyStep w ts f n = (Ret (ts ++ recordIfDownloaded w f), S n).
Proof.
  intros St. unfold vttOnlyStep, isVttFile, recordIfDownloaded. intros ->.
  unfold tryCatch, bind, fetchText. rewrite St.
  destruct (download w 0 (downloadUrl f)); [reflexivity|].
  now rewrite app_nil_r.
Qed.

Lemma vttOnlyLoop_stable (files : list DriveItem) :
  stable w ->
  forall ts n,
    forOf (vttOnlyStep w) files ts n
    = (Ret (ts ++ flat_map (recordIfDownloaded w) (filter isVttFile files)),
       n + length (filter isVttFile files)).
Proof.
  intros St. induction files as [|f files IH]; intros ts n; simpl.
  - now rewrite app_nil_r, Nat.add_0_r.
  - destruct (isVttFile f) eqn:V.
    + rewrite (bind_run _ _ _ _ _ (vttOnlyStep_stable ts f n St V)), IH.
      simpl. rewrite <- app_assoc. f_equal. lia.
    + rewrite (bind_run _ _ _ _ _ (vttOnlyStep_skip ts f n V)). apply IH.
Qed.

Lemma vttStep_run (ts : list TranscriptFile) (p : NameSet) (f : DriveItem) (n : nat) :
  vttStep w (ts, p) f n =
  match download w n (downloadUrl f) with
  | Ret c => (Ret (ts ++ [transcriptOf f c None None], add p (name f)), S n)
  | Thrown _ => (Ret (ts, p), S n)
  end.
Proof.
  unfold vttStep, tryCatch, bind, fetchText.
  destruct (download w n (downloadUrl f)); reflexivity.
Qed.

Lemma vttOnlyStep_run (ts : list TranscriptFile) (f : DriveItem) (n : nat) :
  isVttFile f = true ->
  vttOnlyStep w ts f n =
  match download w n (downloadUrl f) with
  | Ret c => (Ret (ts ++ [transcriptOf f c None None]), S n)
  | Thrown _ => (Ret ts, S n)
  end.
Proof.
  unfold vttOnlyStep, isVttFile. intros ->. unfold tryCatch, bind, fetchText.
  destruct (download w n (downloadUrl f)); reflexivity.
Qed.

Lemma vttLoop_stable (files : list DriveItem) :
  stable w ->
  forall ts p n,
    exists p',
      forOf (vttStep w) files (ts, p) n
      = (Ret (ts ++ flat_map (recordIfDownloaded w) files, p'), n + length files).
Proof.
  intros St. induction files as [|f files IH]; intros ts p n;
    cbn [forOf flat_map length].
  - exists p. now rewrite app_nil_r, Nat.add_0_r.
  - unfold bind at 1. rewrite vttStep_run, St. unfold recordIfDownloaded at 1.
    destruct (download w 0 (downloadUrl f)) as [c|e].
    + destruct (IH (ts ++ [transcriptOf f c None None]) (add p (name f)) (S n))
        as [p' E].
      exists p'. rewrite E, <- app_assoc. simpl. f_equal. lia.
    + destruct (IH ts p (S n)) as [p' E].
      exists p'. rewrite E. simpl. f_equal. lia.
Qed.

Lemma textStep_run (ts : list TranscriptFile) (f : DriveItem) (n : nat) :
  textStep w ts f n =
  if isTextFile f then
    match download w n (downloadUrl f) with
    | Ret c => (Ret (ts ++ [transcriptOf f c None None]), S n)
    | Thrown _ => (Ret ts, S n)
    end
  else (Ret ts, n).
Proof.
  unfold textStep. destruct (isTextFile f); [|reflexivity].
  unfold tryCatch, bind, fetchText.
  destruct (download w n (downloadUrl f)); reflexivity.
Qed.

Lemma textLoop_stable (files : list DriveItem) :
  stable w ->
  forall ts n,
    forOf (textStep w) files ts n
    = (Ret (ts ++ flat_map (recordIfDownloaded w) (filter isTextFile files)),
       n + length (filter isTextFile files)).
Proof.
  intros St. induction files as [|f files IH]; intros ts n;
    cbn [forOf filter].
  - simpl. now rewrite app_nil_r, Nat.add_0_r.
  - unfold bind at 1. rewrite textStep_run. destruct (isTextFile f).
    + rewrite St. cbn [flat_map length]. unfold recordIfDownloaded at 1.
      destruct (download w 0 (downloadUrl f)) as [c|e];
        rewrite IH; simpl; [rewrite <- app_assoc|]; f_equal; lia.
    + apply IH.
Qed.

(** The loop over the VTT files of a folder and the loop of
    [processVTTFiles] over the whole folder return the same transcripts
    after the same calls. *)
Lemma vttLoop_vttOnlyLoop (files : list DriveItem) :
  forall ts p n,
    exists ts' p' n',
      forOf (vttStep w) (vttFilesOf files) (ts, p) n = (Ret (ts', p'), n') /\
      forOf (vttOnlyStep w) files ts n = (Ret ts', n').
Proof.
  induction files as [|f files IH]; intros ts p n.
  - exists ts, p, n. split; reflexivity.
  - unfold vttFilesOf; cbn [filter]. fold (isVttFile f). fold (vttFilesOf files).
    destruct (isVttFile f) eqn:V.
    + cbn [forOf]. unfold bind at 1 2.
      rewrite vttStep_run, (vttOnlyStep_run ts f n V).
      destruct (download w n (downloadUrl f)) as [c|e].
      * apply (IH (ts ++ [transcriptOf f c None None]) (add p (name f)) (S n)).
      * apply (IH ts p (S n)).
    + cbn [forOf]. unfold bind at 1.
      rewrite (vttOnlyStep_skip ts f n V). apply (IH ts p n).
Qed.

Lemma textLoop_none (files : list DriveItem) :
  filter isTextFile files = [] ->
  forall ts n, forOf (textStep w) files ts n = (Ret ts, n).
Proof.
  induction files as [|f files IH]; intros H ts n; cbn [forOf]; [reflexivity|].
  cbn [filter] in H. unfold bind at 1. rewrite textStep_run.
  destruct (isTextFile f); [discriminate|]. now apply IH.
Qed.

End Standalone.

(** X16.  When the answer to a download does not depend on the moment it is
    asked, [processVTTFiles] returns, in the order of the folder, one
    standalone transcript for each file ending in [.vtt] whose download
    succeeds, and makes one call for each such file. *)
Theorem processVTTFiles_returns_the_downloaded_vtts (w : World)
    (files : list DriveItem) (n : nat) :
  stable w ->
  processVTTFiles w files n
  = (Ret (flat_map (recordIfDownloaded w) (filter isVttFile files)),
     n + length (filter isVttFile files)).
Proof. intros St. exact (vttOnlyLoop_stable w files St [] n). Qed.

(** X14.  On a folder without recordings, with answers to downloads that do not
    depend on the moment, the scan returns the standalone transcripts of
    the VTT files that download, then those of the text files that
    download, each in the order of the folder, one call for each file. *)
Theorem scan_without_recordings (w : World) (allFiles : list DriveItem) (n : nat) :
  stable w ->
  mp4FilesOf allFiles = [] ->
  scan w allFiles n
  = (Ret (flat_map (recordIfDownloaded w) (vttFilesOf allFiles)
          ++ flat_map (recordIfDownloaded w) (filter isTextFile allFiles)),
     n + length (vttFilesOf allFiles) + length (filter isTextFile allFiles)).
Proof.
  intros St Hmp4. unfold scan; cbv zeta. rewrite Hmp4.
  destruct (vttLoop_stable w (vttFilesOf allFiles) St [] [] n) as [p' E].
  rewrite (bind_run _ _ _ _ _ E). simpl forOf.
  unfold bind at 1, ret at 1. simpl fst.
  apply textLoop_stable, St.
Qed.

(** X15.  On a folder with no recording and no text file the scan of SharePoint
    and [processVTTFiles] of the OneDrive pass do the same: the same
    transcripts after the same calls, whatever the downloads answer. *)
Theorem scan_agrees_with_processVTTFiles (w : World) (allFiles : list DriveItem)
    (n : nat) :
  mp4FilesOf allFiles = [] ->
  filter isTextFile allFiles = [] ->
  scan w allFiles n = processVTTFiles w allFiles n.
Proof.
  intros Hmp4 Htext. unfold scan, processVTTFiles; cbv zeta. rewrite Hmp4.
  destruct (vttLoop_vttOnlyLoop w allFiles [] [] n) as (ts & p & n' & E1 & E2).
  rewrite (bind_run _ _ _ _ _ E1), E2. simpl forOf.
  unfold bind at 1, ret at 1. simpl fst.
  now apply textLoop_none.
Qed.

Lemma processVTTFiles_returns_the_downloaded_vtts_witness :
  processVTTFiles Example.mixedWorld Example.mixed 0
  = (Ret [transcriptOf (Scenario.fileNamed "vtt-1" "Weekly Sync.vtt")
            "TEXT https://dl.example/vtt-1" None None], 1).
Proof.
  apply (processVTTFiles_returns_the_downloaded_vtts Example.mixedWorld Example.mixed 0).
  intros k u; reflexivity.
Defined.

Lemma scan_without_recordings_witness :
  scan Example.mixedWorld Example.mixed 0
  = (Ret [transcriptOf (Scenario.fileNamed "vtt-1" "Weekly Sync.vtt")
            "TEXT https://dl.example/vtt-1" None None;
          transcriptOf (Scenario.fileNamed "doc-1" "agenda.docx")
            "TEXT https://dl.example/doc-1" None None], 3).
Proof.
  apply (scan_without_recordings Example.mixedWorld Example.mixed 0).
  - intros k u; reflexivity.
  - reflexivity.
Defined.

Lemma scan_agrees_with_processVTTFiles_witness :
  scan Example.mixedWorld
    [Scenario.fileNamed "vtt-1" "Weekly Sync.vtt"; Scenario.fileNamed "png-1" "board.png"] 0
  = processVTTFiles Example.mixedWorld
      [Scenario.fileNamed "vtt-1" "Weekly Sync.vtt"; Scenario.fileNamed "png-1" "board.png"] 0.
Proof.
  apply scan_agrees_with_processVTTFiles; reflexivity.
Defined.

(** ** The OneDrive recordings *)

Section RecordingsFacts.

Variables (w : World) (d : OneDrive).

Lemma post_vttOnlyStep (ts : list TranscriptFile) (f : DriveItem) :
  Forall (standaloneVtt w) ts ->
  post (vttOnlyStep w ts f) (Forall (standaloneVtt w)).
Proof.
  intros H. unfold vttOnlyStep.
  destruct (isFile f && endsWith (name f) ".vtt") eqn:V; [|now apply post_ret].
  apply post_tryCatch; [|intros e; now apply post_ret].
  apply post_bind. intros n c n1 E. apply post_ret.
  apply Forall_app; split; [exact H|]. constructor; [|constructor].
  apply andb_true_iff in V as [_ V].
  unfold fetchText in E; inversion E.
  repeat split; try assumption. now exists n, f.
Qed.

Lemma post_processValue (value : option (list DriveItem)) :
  post (processValue w value) (Forall (standaloneVtt w)).
Proof.
  destruct value as [files|]; [|apply post_throw].
  apply (post_forOf _ (Forall (standaloneVtt w))); [|constructor].
  intros ts f _. apply post_vttOnlyStep.
Qed.

Lemma post_fetchOneDriveRecordings :
  post (fetchOneDriveRecordings w d) (Forall (standaloneVtt w)).
Proof.
  unfold fetchOneDriveRecordings.
  apply post_bind_any; intros _.
  apply post_tryCatch; [|intros e; apply post_throw].
  apply post_bind_any; intros [status|folderId].
  - apply post_bind. unfold searchForRecordings.
    apply post_bind_any; intros [s|[items|]];
      [apply post_ret; apply post_throw | | apply post_throw].
    destruct (find _ items); [|apply post_ret; apply post_throw].
    apply post_bind_any; intros [s|filesValue]; [apply post_ret; apply post_throw|].
    apply post_bind. eapply post_weaken; [apply post_processValue|].
    intros ts Hts. apply post_ret. now apply post_ret.
  - apply post_bind_any; intros [status|filesValue];
      [apply post_throw | apply post_processValue].
Qed.

End RecordingsFacts.

(** X17.  Whatever way the Recordings folder was found, every transcript of the
    OneDrive pass has a name ending in [.vtt], names no video, and holds
    the text of a download that succeeded. *)
Theorem recordings_are_standalone_vtts (w : World) (d : OneDrive) (n n' : nat)
    (ts : list TranscriptFile) :
  fetchOneDriveRecordings w d n = (Ret ts, n') ->
  forall t, In t ts ->
    endsWith (t_name t) ".vtt" = true /\
    videoFileName t = None /\ videoUrl t = None /\
    downloaded w t.
Proof.
  intros E. apply Forall_forall.
  exact (post_fetchOneDriveRecordings w d _ _ _ E).
Qed.

Lemma recordings_are_standalone_vtts_witness :
  endsWith "Weekly Sync.vtt" ".vtt" = true /\
  @None string = None /\ @None string = None /\
  downloaded Example.mixedWorld
    (transcriptOf (Scenario.fileNamed "vtt-1" "Weekly Sync.vtt")
        "TEXT https://dl.example/vtt-1" None None).
Proof.
  apply (recordings_are_standalone_vtts Example.mixedWorld Example.withRecordings 0 4
           _ eq_refl
           (transcriptOf (Scenario.fileNamed "vtt-1" "Weekly Sync.vtt")
        "TEXT https://dl.example/vtt-1" None None)).
  left; reflexivity.
Defined.

(** X18.  Without the special folder the action answers 400 with the message
    [Could not find Recordings folder in OneDrive] in each of three cases:
    the search is not ok; the search has no folder named exactly
    [Recordings] (a file of that name, or a folder [recordings], does not
    count); the listing of the folder found is not ok. *)
Theorem recordings_folder_not_found (w : World) (d : OneDrive) (n : nat)
    (token status : string) :
  accessToken d n = Ret token ->
  approot d (S n) = NotOk status ->
  (exists s, searchRecordings d (S (S n)) = NotOk s) \/
  (exists items,
     searchRecordings d (S (S n)) = Okay (Some items) /\
     (find recordingsFolderNamed items = None \/
      exists f s, find recordingsFolderNamed items = Some f /\
                  driveChildren d (S (S (S n))) (id f) = NotOk s)) ->
  exists n',
    fetchFromRecordingsAction w d n
    = (Ret (Status400 "Could not find Recordings folder in OneDrive"), n').
Proof.
  intros Htoken Hroot Hsearch.
  unfold fetchFromRecordingsAction, fetchOneDriveRecordings, searchForRecordings.
  unfold tryCatch, bind, fetchAnswer. rewrite Htoken, Hroot.
  destruct Hsearch as [[s Hs]|(items & Hs & [Hnone|(f & s & Hf & Hlist)])];
    rewrite Hs.
  - eexists; reflexivity.
  - rewrite Hnone. eexists; reflexivity.
  - rewrite Hf, Hlist. eexists; reflexivity.
Qed.

Lemma recordings_folder_not_found_witness :
  recordingsFolderNamed (Scenario.fileNamed "f-1" "Recordings") = false /\
  recordingsFolderNamed (Example.folder "d-1" "recordings") = false /\
  exists n',
    fetchFromRecordingsAction Example.mixedWorld Example.noRecordings 0
    = (Ret (Status400 "Could not find Recordings folder in OneDrive"), n').
Proof.
  split; [reflexivity|]. split; [reflexivity|].
  apply (recordings_folder_not_found Example.mixedWorld Example.noRecordings 0
           "token" "404"); [reflexivity | reflexivity |].
  right. eexists. split; [reflexivity|]. left. reflexivity.
Defined.

(** ** The responses of the [fetch] action *)

Section StoreLoop.

Variable w : World.

Lemma storeStep_run (stored : list Row) (errs : list ErrorEntry)
    (t : TranscriptFile) (n : nat) :
  storeStep w (stored, errs) t n =
  (Ret match upsert w n t with
       | Ret r =>
           match upsertError r with
           | Some msg => (stored, errs ++ [mkError (t_name t) msg])
           | None =>
               match data r with
               | Some row => (stored ++ [row], errs)
               | None => (stored, errs)
               end
           end
       | Thrown e => (stored, errs ++ [mkError (t_name t) e])
       end, S n).
Proof.
  unfold storeStep, tryCatch, bind, ret.
  destruct (upsert w n t) as [r|e]; [|reflexivity].
  destruct (upsertError r); [reflexivity|]. destruct (data r); reflexivity.
Qed.

(** The loop makes one call for each transcript and never throws. *)
Lemma storeLoop_runs (ts : list TranscriptFile) :
  forall st n, exists st', forOf (storeStep w) ts st n = (Ret st', n + length ts).
Proof.
  induction ts as [|t ts IH]; intros [stored errs] n; cbn [forOf length].
  - exists (stored, errs). now rewrite Nat.add_0_r.
  - unfold bind at 1. rewrite storeStep_run.
    match goal with |- context [forOf _ ts ?s (S n)] =>
      destruct (IH s (S n)) as [st' E]; exists st'; rewrite E; f_equal; lia end.
Qed.

Lemma storeLoop_all_stored (ts : list TranscriptFile) :
  (forall k t, exists row,
     upsert w k t = Ret {| data := Some row; upsertError := None |}) ->
  forall stored errs n,
    exists rows,
      forOf (storeStep w) ts (stored, errs) n
      = (Ret (stored ++ rows, errs), n + length ts) /\
      length rows = length ts.
Proof.
  intros Hok. induction ts as [|t ts IH]; intros stored errs n; cbn [forOf length].
  - exists []. now rewrite app_nil_r, Nat.add_0_r.
  - unfold bind at 1. rewrite storeStep_run.
    destruct (Hok n t) as [row ->]. cbn [upsertError data].
    destruct (IH (stored ++ [row]) errs (S n)) as (rows & E & L).
    exists (row :: rows). rewrite E, <- app_assoc. simpl.
    split; [f_equal; lia | now rewrite L].
Qed.

Lemma storeLoop_all_failed (ts : list TranscriptFile) :
  (forall k t,
     (exists e, upsert w k t = Thrown e) \/
     (exists r msg, upsert w k t = Ret r /\ upsertError r = Some msg)) ->
  forall stored errs n,
    exists es,
      forOf (storeStep w) ts (stored, errs) n
      = (Ret (stored, errs ++ es), n + length ts) /\
      map file es = map t_name ts.
Proof.
  intros Hbad. induction ts as [|t ts IH]; intros stored errs n; cbn [forOf length].
  - exists []. now rewrite app_nil_r, Nat.add_0_r.
  - unfold bind at 1. rewrite storeStep_run.
    destruct (Hbad n t) as [[e ->]|(r & msg & -> & Hmsg)]; [|rewrite Hmsg];
      match goal with |- context [forOf _ ts (stored, errs ++ [?x]) (S n)] =>
        destruct (IH stored (errs ++ [x]) (S n)) as (es & E & L);
        exists (x :: es); rewrite E, <- app_assoc; simpl;
        split; [f_equal; lia | now rewrite L] end.
Qed.

End StoreLoop.

(** X19.  The [fetch] action answers 400 exactly when the listing of the folder
    throws, with what was thrown as its message.  Once the folder is
    listed it answers 200 whatever the downloads and the stores do, after
    one store call for each transcript of the scan, and [total] is their
    number. *)
Theorem fetch_answers_400_only_for_the_listing (w : World) (n : nat) :
  match folderFiles w n with
  | Thrown e => fetchAction w n = (Ret (Status400 e), S n)
  | Ret allFiles =>
      exists ts n1 body,
        scan w allFiles (S n) = (Ret ts, n1) /\
        fetchAction w n = (Ret (Ok200 body), n1 + length ts) /\
        total body = length ts
  end.
Proof.
  destruct (folderFiles w n) as [allFiles|e] eqn:Hlist.
  - destruct (safe_scan w allFiles (S n)) as (ts & n1 & Hscan).
    destruct (storeLoop_runs w ts ([], []) n1) as ([stored errs] & Hstore).
    exists ts, n1. eexists. split; [exact Hscan|].
    split; [exact (fetchAction_run w n allFiles ts n1 stored errs _ Hlist Hscan Hstore)
           | reflexivity].
  - unfold fetchAction, fetchSharePointTranscripts, tryCatch, bind.
    now rewrite Hlist.
Qed.

(** X20.  When every store hands back a row, the response counts every
    transcript of the scan as stored and has no [errors]. *)
Theorem fetch_all_stored (w : World) (n : nat) (allFiles : list DriveItem) :
  folderFiles w n = Ret allFiles ->
  (forall k t, exists row,
     upsert w k t = Ret {| data := Some row; upsertError := None |}) ->
  exists ts n1 body n2,
    scan w allFiles (S n) = (Ret ts, n1) /\
    fetchAction w n = (Ret (Ok200 body), n2) /\
    count body = length ts /\ total body = length ts /\
    length (transcripts body) = length ts /\ errors body = None.
Proof.
  intros Hlist Hok.
  destruct (safe_scan w allFiles (S n)) as (ts & n1 & Hscan).
  destruct (storeLoop_all_stored w ts Hok [] [] n1) as (rows & Hstore & L).
  exists ts, n1. eexists. exists (n1 + length ts).
  split; [exact Hscan|].
  split; [exact (fetchAction_run w n allFiles ts n1 _ _ _ Hlist Hscan Hstore)|].
  simpl. auto.
Qed.

Lemma fetch_all_stored_witness :
  exists ts n1 body n2,
    scan Example.mixedWorld Example.mixed 1 = (Ret ts, n1) /\
    fetchAction Example.mixedWorld 0 = (Ret (Ok200 body), n2) /\
    count body = length ts /\ total body = length ts /\
    length (transcripts body) = length ts /\ errors body = None.
Proof.
  apply (fetch_all_stored Example.mixedWorld 0 Example.mixed).
  - reflexivity.
  - intros k t. eexists. reflexivity.
Defined.

(** X21.  When every store fails, by an error of the database or by throwing,
    nothing is counted as stored and [errors] names every transcript of
    the scan once, in the order of the scan. *)
Theorem fetch_all_failed (w : World) (n : nat) (allFiles : list DriveItem) :
  folderFiles w n = Ret allFiles ->
  (forall k t,
     (exists e, upsert w k t = Thrown e) \/
     (exists r msg, upsert w k t = Ret r /\ upsertError r = Some msg)) ->
  exists ts n1 body n2,
    scan w allFiles (S n) = (Ret ts, n1) /\
    fetchAction w n = (Ret (Ok200 body), n2) /\
    count body = 0 /\ transcripts body = [] /\ total body = length ts /\
    map file (reported body) = map t_name ts.
Proof.
  intros Hlist Hbad.
  destruct (safe_scan w allFiles (S n)) as (ts & n1 & Hscan).
  destruct (storeLoop_all_failed w ts Hbad [] [] n1) as (es & Hstore & L).
  exists ts, n1. eexists. exists (n1 + length ts).
  split; [exact Hscan|].
  split; [exact (fetchAction_run w n allFiles ts n1 _ _ _ Hlist Hscan Hstore)|].
  unfold reported; simpl. repeat split; try reflexivity.
  destruct es; [|exact L]. simpl in *. exact L.
Qed.

Lemma fetch_all_failed_witness :
  exists ts n1 body n2,
    scan Example.failingStore Example.mixed 1 = (Ret ts, n1) /\
    fetchAction Example.failingStore 0 = (Ret (Ok200 body), n2) /\
    count body = 0 /\ transcripts body = [] /\ total body = length ts /\
    map file (reported body) = map t_name ts.
Proof.
  apply (fetch_all_failed Example.failingStore 0 Example.mixed).
  - reflexivity.
  - intros k t. simpl. destruct (t_name t =? "Notes.txt")%string.
    + right. eexists; eexists. split; reflexivity.
    + left. eexists. reflexivity.
Defined.

(** ** The diagnostics listings *)

Section ListingFacts.

(** A name ends in [.x] exactly when its extension is [x], for an [x]
    that is not empty and holds no dot. *)
Lemma endsWith_extension (n x : string) :
  x <> "" -> includes x "." = false ->
  endsWith n ("." ++ x) = (extensionOf n =? x)%string.
Proof.
  intros Hne Hx. destruct (endsWith n ("." ++ x)) eqn:E.
  - apply endsWith_inv in E as [stem ->]. symmetry. apply String.eqb_eq.
    now apply extension_of_dotted.
  - destruct (extensionOf n =? x)%string eqn:X; [|reflexivity].
    apply String.eqb_eq in X.
    destruct (extension_parts n) as (_ & Hdec & Hnone).
    destruct (includes n ".") eqn:I.
    + destruct (Hdec eq_refl) as [stem Hn]. rewrite X in Hn.
      rewrite Hn, endsWith_append in E. discriminate E.
    + rewrite (Hnone eq_refl) in X. now subst x.
Qed.

Lemma listed_as_scanned (i : ListedItem) :
  isVttFile (item i) = listedAs "vtt" (fileInfoOf i) /\
  isTextFile (item i)
  = listedAs "txt" (fileInfoOf i) || listedAs "docx" (fileInfoOf i).
Proof.
  unfold isVttFile, isTextFile, listedAs, fileInfoOf; simpl.
  rewrite <- (endsWith_extension _ "vtt"), <- (endsWith_extension _ "txt"),
          <- (endsWith_extension _ "docx"); try discriminate; try reflexivity.
  split; [reflexivity|]. now rewrite andb_orb_distrib_r.
Qed.

(** X22.  The listing of a folder shows as files with the extension [vtt]
    exactly the items the scan takes for VTT files, and as files with the
    extension [txt] or [docx] exactly those it takes for text files. *)
Theorem listing_predicts_scan (i : ListedItem) :
  isVttFile (item i) = listedAs "vtt" (fileInfoOf i) /\
  isTextFile (item i)
  = listedAs "txt" (fileInfoOf i) || listedAs "docx" (fileInfoOf i).
Proof. exact (listed_as_scanned i). Qed.

Variable l : Library.

(** X23.  [listFilesInFolder] returns only when the token, the site and the
    listing were all obtained, after exactly three calls, with one entry
    for each item in the order of the listing; so the entries it shows as
    [vtt] files are the VTT files of the scan of that listing. *)
Theorem listFilesInFolder_lists_every_item (n n' : nat) (infos : list FileInfo.t) :
  listFilesInFolder l n = (Ret infos, n') ->
  exists value,
    folderListing l (S (S n)) = Okay (Some value) /\
    n' = n + 3 /\
    infos = map fileInfoOf value /\
    map FileInfo.name (filter (listedAs "vtt") infos)
    = map name (vttFilesOf (map item value)).
Proof.
  unfold listFilesInFolder, getToken, readErrorText, bind, fetchAnswer, throw, ret.
  destruct (siteToken l n) as [tok|e]; [|discriminate].
  destruct (site l (S n)) as [e|status|siteId].
  - discriminate.
  - destruct (errorText l (S (S n))); discriminate.
  - destruct (folderListing l (S (S n))) as [e|status|[value|]]; try discriminate.
    + destruct (errorText l (S (S (S n)))); discriminate.
    + intros E; inversion E; subst. exists value.
      repeat split; [lia|].
      induction value as [|i value IH]; [reflexivity|].
      unfold vttFilesOf in *. cbn [map filter].
      fold (isVttFile (item i)).
      rewrite (proj1 (listed_as_scanned i)).
      destruct (listedAs "vtt" (fileInfoOf i)); cbn [map]; now rewrite IH.
Qed.

Lemma wellRooted_top (fs : list FolderEntry) (dr : Drive) (i : DriveItem) :
  wellRooted fs -> wellRooted (fs ++ [topEntry dr i]).
Proof.
  intros H e He. apply in_app_or in He as [He|[<-|[]]].
  - destruct (H e He) as [T|(p & Hp & Tp & L & E)]; [now left|].
    right. exists p. repeat split; try assumption. apply in_or_app; now left.
  - now left.
Qed.

Lemma wellRooted_subs (fs : list FolderEntry) (dr : Drive) (i : DriveItem)
    (subs : list DriveItem) :
  wellRooted fs -> In (topEntry dr i) fs ->
  wellRooted (fs ++ map (subEntry dr i) subs).
Proof.
  intros H Htop e He. apply in_app_or in He as [He|He].
  - destruct (H e He) as [T|(p & Hp & Tp & L & E)]; [now left|].
    right. exists p. repeat split; try assumption. apply in_or_app; now left.
  - apply in_map_iff in He as (sub & <- & _).
    right. exists (topEntry dr i). repeat split.
    apply in_or_app; now left.
Qed.

Lemma post_subFolders (dr : Drive) (i : DriveItem) (fs : list FolderEntry) :
  wellRooted fs -> In (topEntry dr i) fs ->
  post (subFolders l dr i fs) wellRooted.
Proof.
  intros H Htop. unfold subFolders.
  apply post_tryCatch; [|intros e; now apply post_ret].
  apply post_bind_any; intros [[value|]|];
    [apply post_ret; now apply wellRooted_subs | apply post_throw | now apply post_ret].
Qed.

Lemma post_rootItemStep (dr : Drive) (fs : list FolderEntry) (i : DriveItem) :
  wellRooted fs -> post (rootItemStep l dr fs i) wellRooted.
Proof.
  intros H. unfold rootItemStep. destruct (isFolder i); [|now apply post_ret].
  apply post_subFolders; [now apply wellRooted_top|].
  apply in_or_app; right; now left.
Qed.

Lemma post_driveStep (fs : list FolderEntry) (dr : Drive) :
  wellRooted fs -> post (driveStep l fs dr) wellRooted.
Proof.
  intros H. unfold driveStep.
  apply post_tryCatch; [|intros e; now apply post_ret].
  apply post_bind_any; intros [[value|]|];
    [|apply post_throw | now apply post_ret].
  apply (post_forOf _ wellRooted); [|exact H].
  intros st x _. apply post_rootItemStep.
Qed.

(** X24.  Every folder [listSharePointFolders] returns is a folder of the root
    of a library, with the path [/name], or a folder one level down whose
    parent is in the list too, with the path of the parent, a slash and
    its name: the list never goes deeper and never holds a folder without
    its parent. *)
Theorem folders_are_listed_with_their_parents (n n' : nat)
    (folders : list FolderEntry) :
  listSharePointFolders l n = (Ret folders, n') ->
  forall e, In e folders ->
    path e = ("/" ++ folder_name e)%string \/
    exists parent,
      In parent folders /\
      path parent = ("/" ++ folder_name parent)%string /\
      libraryName parent = libraryName e /\
      path e = (path parent ++ "/" ++ folder_name e)%string.
Proof.
  revert n folders n'.
  change (post (listSharePointFolders l) wellRooted).
  unfold listSharePointFolders.
  apply post_bind_any; intros _.
  apply post_bind_any; intros [status|siteId].
  - apply post_bind_any; intros _. apply post_throw.
  - apply post_bind_any; intros [status|[value|]]; try apply post_throw.
    apply (post_forOf _ wellRooted); [|intros e []].
    intros st x _. apply post_driveStep.
Qed.

End ListingFacts.


Lemma listFilesInFolder_lists_every_item_witness :
  exists value,
    folderListing Example.diagnostics 2 = Okay (Some value) /\
    3 = 0 + 3 /\
    map fileInfoOf Example.listed = map fileInfoOf value /\
    map FileInfo.name (filter (listedAs "vtt") (map fileInfoOf Example.listed))
    = map name (vttFilesOf (map item value)).
Proof.
  apply (listFilesInFolder_lists_every_item Example.diagnostics 0 3).
  reflexivity.
Defined.

Lemma folders_are_listed_with_their_parents_witness :
  "/Meetings/2025" = "/2025" \/
  exists parent,
    In parent
      [topEntry (mkDrive "drv-2" "Documents") (Example.folder "a" "Meetings");
       subEntry (mkDrive "drv-2" "Documents") (Example.folder "a" "Meetings")
         (Example.folder "a1" "2024");
       subEntry (mkDrive "drv-2" "Documents") (Example.folder "a" "Meetings")
         (Example.folder "a2" "2025");
       topEntry (mkDrive "drv-2" "Documents") (Example.folder "b" "Private")] /\
    path parent = ("/" ++ folder_name parent)%string /\
    libraryName parent = "Documents" /\
    "/Meetings/2025" = (path parent ++ "/" ++ "2025")%string.
Proof.
  apply (folders_are_listed_with_their_parents Example.twoLibraries 0 7 _ eq_refl
           (subEntry (mkDrive "drv-2" "Documents") (Example.folder "a" "Meetings")
              (Example.folder "a2" "2025"))).
  right; right; left; reflexivity.
Defined.

Section ListingSurvives.

Variable l : Library.

Lemma safe_driveStep (fs : list FolderEntry) (dr : Drive) : safe (driveStep l fs dr).
Proof. apply safe_tryCatch; intros e; apply safe_ret. Qed.

Lemma safe_rootItemStep (dr : Drive) (fs : list FolderEntry) (i : DriveItem) :
  safe (rootItemStep l dr fs i).
Proof.
  unfold rootItemStep. destruct (isFolder i); [|apply safe_ret].
  apply safe_tryCatch; intros e; apply safe_ret.
Qed.

Lemma subFolders_extends (dr : Drive) (i : DriveItem) (fs : list FolderEntry) :
  post (subFolders l dr i fs) (fun fs' => forall e, In e fs -> In e fs').
Proof.
  unfold subFolders.
  apply post_tryCatch; [|intros e; now apply post_ret].
  apply post_bind_any; intros [[value|]|];
    [|apply post_throw | now apply post_ret].
  apply post_ret. intros e He. apply in_or_app; now left.
Qed.

Lemma rootItemStep_extends (dr : Drive) (fs : list FolderEntry) (i : DriveItem) :
  post (rootItemStep l dr fs i) (fun fs' => forall e, In e fs -> In e fs').
Proof.
  unfold rootItemStep. destruct (isFolder i); [|now apply post_ret].
  eapply post_weaken; [apply subFolders_extends|].
  intros fs' H e He. apply H. apply in_or_app; now left.
Qed.

Lemma driveStep_extends (fs : list FolderEntry) (dr : Drive) :
  post (driveStep l fs dr) (fun fs' => forall e, In e fs -> In e fs').
Proof.
  unfold driveStep.
  apply post_tryCatch; [|intros e; now apply post_ret].
  apply post_bind_any; intros [[value|]|];
    [|apply post_throw | now apply post_ret].
  apply (post_forOf _ (fun st => forall e, In e fs -> In e st)); [|auto].
  intros st x _ Hst. eapply post_weaken; [apply rootItemStep_extends|].
  intros fs' H e He. auto.
Qed.

Variables (drive : Drive) (items : list DriveItem) (i : DriveItem).
Hypothesis root_listed : forall k, rootChildren l k (drive_id drive) = Body (Some items).
Hypothesis i_listed : In i items.
Hypothesis i_folder : isFolder i = true.

Lemma shown_extends (fs fs' : list FolderEntry) :
  (forall e, In e fs -> In e fs') -> shown l drive i fs -> shown l drive i fs'.
Proof. intros H [H1 H2]; split; eauto. Qed.

Lemma rootItemStep_shows (fs : list FolderEntry) :
  post (rootItemStep l drive fs i) (shown l drive i).
Proof.
  unfold rootItemStep. rewrite i_folder. unfold subFolders.
  intros n fs' n' E. unfold tryCatch, bind, fetchOk, ret, throw in E.
  assert (Top : In (topEntry drive i) (fs ++ [topEntry drive i])).
  { apply in_or_app; right; now left. }
  destruct (folderChildren l n (drive_id drive) (id i)) as [e| |[value|]] eqn:R;
    inversion E; subst; split;
    try (apply in_or_app; now left); try exact Top;
    intros subs sub Hsubs Hsub Hfolder; rewrite Hsubs in R; try discriminate R.
  inversion R; subst value. apply in_or_app; right.
  apply in_map. apply filter_In. now split.
Qed.

Lemma driveStep_shows (fs : list FolderEntry) : post (driveStep l fs drive) (shown l drive i).
Proof.
  unfold driveStep. intros n fs' n' E.
  unfold tryCatch, bind, fetchOk in E. rewrite root_listed in E.
  destruct (safe_forOf (rootItemStep l drive) items (safe_rootItemStep drive) fs (S n))
    as (a & n2 & L).
  rewrite L in E. inversion E; subst.
  refine (forOf_reaches (rootItemStep l drive) (shown l drive i) i items _ _ i_listed
            fs _ _ _ L).
  - intros st x Hst. eapply post_weaken; [apply rootItemStep_extends|].
    intros st' H. exact (shown_extends _ _ H Hst).
  - apply rootItemStep_shows.
Qed.

End ListingSurvives.

(** X25.  A folder of the root of a library whose listing answers is in the
    list of folders, and so are the folders inside it when its own
    listing answers, whatever the requests for the other libraries and
    folders do; once the libraries are listed, [listSharePointFolders]
    does not throw. *)
Theorem listed_folder_survives_failures (l : Library) (n : nat)
    (token siteId : string) (ds : list Drive) (drive : Drive)
    (items : list DriveItem) (i : DriveItem) :
  siteToken l n = Ret token ->
  site l (S n) = Okay siteId ->
  drives l (S (S n)) = Okay (Some ds) ->
  In drive ds ->
  (forall k, rootChildren l k (drive_id drive) = Body (Some items)) ->
  In i items -> isFolder i = true ->
  exists folders n',
    listSharePointFolders l n = (Ret folders, n') /\
    In (topEntry drive i) folders /\
    (forall subs sub,
       (forall k, folderChildren l k (drive_id drive) (id i) = Body (Some subs)) ->
       In sub subs -> isFolder sub = true ->
       In (subEntry drive i sub) folders).
Proof.
  intros Htoken Hsite Hdrives Hdrive Hroot Hi Hfolder.
  destruct (safe_forOf (driveStep l) ds (safe_driveStep l) [] (S (S (S n))))
    as (folders & n' & Hloop).
  exists folders, n'.
  assert (Hrun : listSharePointFolders l n = (Ret folders, n')).
  { unfold listSharePointFolders, getToken, bind, fetchAnswer.
    now rewrite Htoken, Hsite, Hdrives. }
  split; [exact Hrun|].
  refine (forOf_reaches (driveStep l) (shown l drive i) drive ds _ _ Hdrive
            [] _ _ _ Hloop).
  - intros st x Hst. eapply post_weaken; [apply driveStep_extends|].
    intros st' H. exact (shown_extends l drive i _ _ H Hst).
  - intros st. now apply (driveStep_shows l drive items i).
Qed.

Lemma listed_folder_survives_failures_witness :
  exists folders n',
    listSharePointFolders Example.twoLibraries 0 = (Ret folders, n') /\
    In (topEntry (mkDrive "drv-2" "Documents") (Example.folder "a" "Meetings")) folders /\
    (forall subs sub,
       (forall k, folderChildren Example.twoLibraries k "drv-2" "a" = Body (Some subs)) ->
       In sub subs -> isFolder sub = true ->
       In (subEntry (mkDrive "drv-2" "Documents") (Example.folder "a" "Meetings") sub)
          folders).
Proof.
  apply (listed_folder_survives_failures Example.twoLibraries 0 "token" "site-1"
           [mkDrive "drv-1" "Archive"; mkDrive "drv-2" "Documents"]
           (mkDrive "drv-2" "Documents")
           [Example.folder "a" "Meetings"; Scenario.fileNamed "f" "readme.txt";
            Example.folder "b" "Private"]
           (Example.folder "a" "Meetings")); try reflexivity.
  - right; left; reflexivity.
  - left; reflexivity.
Defined.

(** ** The processed names *)

Section Consumed.

Variables (w : World) (f : DriveItem) (c : string) (v : string).
Hypothesis good : forall k, download w k (downloadUrl f) = Ret c.
Hypothesis expected : name f = possibleVttName v.

Lemma has_add (p : NameSet) (x y : string) :
  has (add p y) x = (x =? y)%string || has p x.
Proof. reflexivity. Qed.

Lemma vttStep_marks (st : ScanState) :
  post (vttStep w st f) (fun st' => has (snd st') (name f) = true).
Proof.
  destruct st as [ts p]. intros n st' n' E.
  rewrite vttStep_run, good in E. inversion E; subst; simpl.
  now rewrite String.eqb_refl.
Qed.

Lemma vttStep_keeps_mark (st : ScanState) (x : DriveItem) :
  has (snd st) (name f) = true ->
  post (vttStep w st x) (fun st' => has (snd st') (name f) = true).
Proof.
  destruct st as [ts p]. intros H n st' n' E. rewrite vttStep_run in E.
  destruct (download w n (downloadUrl x)); inversion E; subst; simpl in *;
    [rewrite H; apply orb_true_r | exact H].
Qed.

Lemma vttStep_no_video (st : ScanState) (x : DriveItem) :
  (forall t, In t (fst st) -> videoFileName t <> Some v) ->
  post (vttStep w st x) (fun st' => forall t, In t (fst st') -> videoFileName t <> Some v).
Proof.
  destruct st as [ts p]. intros H n st' n' E. rewrite vttStep_run in E.
  destruct (download w n (downloadUrl x)); inversion E; subst; simpl in *;
    [|exact H].
  intros t Ht. apply in_app_or in Ht as [Ht|[<-|[]]]; [now apply H | discriminate].
Qed.

Lemma mp4Step_skips (vttFiles : list DriveItem) (st : ScanState) (m : DriveItem) :
  skipped f v st -> post (mp4Step w vttFiles st m) (skipped f v).
Proof.
  destruct st as [ts p]; intros [Hp Hts]; simpl in Hp, Hts.
  unfold mp4Step; cbv zeta.
  apply post_tryCatch; [|intros e; apply post_ret; now split].
  destruct (has p (possibleVttName (name m))) eqn:Hhas; [apply post_ret; now split|].
  assert (Hm : name m <> v).
  { intros E. rewrite E, <- expected, Hp in Hhas. discriminate Hhas. }
  assert (Push : forall t p', has p' (name f) = true ->
                   videoFileName t = Some (name m) -> skipped f v (ts ++ [t], p')).
  { intros t p' Hp' Vt. split; [exact Hp'|]. simpl. intros t' Ht'.
    apply in_app_or in Ht' as [Ht'|[<-|[]]]; [now apply Hts|].
    rewrite Vt. intros V; inversion V; contradiction. }
  assert (R : post
    (transcriptFromDriveItem <-
       tryFetchTranscriptFromDriveItem w (id m) (name m) (Some (webUrl m)) ;;
     match transcriptFromDriveItem with
     | Some t => ret (ts ++ [t], p)
     | None => ret (ts, p)
     end) (skipped f v)).
  { apply post_bind. intros n [t|] n1 E; apply post_ret; [|now split].
    apply Push; [exact Hp|].
    exact (proj1 (proj2 (post_resolver w _ _ _ _ _ _ E))). }
  destruct (find _ vttFiles) as [x|]; [|exact R].
  destruct (negb _); [|exact R].
  apply post_bind_any; intros c0. apply post_ret.
  apply Push; [|reflexivity]. rewrite has_add, Hp. apply orb_true_r.
Qed.

Lemma textStep_no_video (ts : list TranscriptFile) (x : DriveItem) :
  (forall t, In t ts -> videoFileName t <> Some v) ->
  post (textStep w ts x) (fun ts' => forall t, In t ts' -> videoFileName t <> Some v).
Proof.
  intros H n ts' n' E. rewrite textStep_run in E.
  destruct (isTextFile x); [|inversion E; now subst].
  destruct (download w n (downloadUrl x)); inversion E; subst; [|exact H].
  intros t Ht. apply in_app_or in Ht as [Ht|[<-|[]]]; [now apply H | discriminate].
Qed.

End Consumed.

(** X13.  A recording whose VTT of the expected name is in the folder and
    downloads gets no transcript at all: the VTT is returned standalone
    in the first loop, its name is processed, and every recording
    expecting that name is skipped, so no transcript of the scan names
    such a recording. *)
Theorem processed_vtt_is_never_attached (w : World) (allFiles : list DriveItem)
    (n n' : nat) (ts : list TranscriptFile) (f : DriveItem) (c v : string) :
  scan w allFiles n = (Ret ts, n') ->
  In f (vttFilesOf allFiles) ->
  (forall k, download w k (downloadUrl f) = Ret c) ->
  name f = possibleVttName v ->
  In (transcriptOf f c None None) ts /\
  forall t, In t ts -> videoFileName t <> Some v.
Proof.
  intros Hscan Hf Hgood Hname. split.
  { exact (scan_keeps_good_file w allFiles f c Hgood (or_introl Hf) _ _ _ Hscan). }
  revert n ts n' Hscan.
  change (post (scan w allFiles)
            (fun ts => forall t, In t ts -> videoFileName t <> Some v)).
  unfold scan; cbv zeta. apply post_bind.
  eapply post_weaken.
  { apply post_conj.
    - apply (forOf_reaches _ (fun st => has (snd st) (name f) = true) f);
        [intros st x; now apply vttStep_keeps_mark
        | intros st; exact (vttStep_marks w f c Hgood st) | exact Hf].
    - apply (post_forOf _ (fun st => forall t, In t (fst st) -> videoFileName t <> Some v));
        [intros st x _; apply vttStep_no_video | intros t []]. }
  intros st1 H1. apply post_bind.
  eapply post_weaken.
  { apply (post_forOf _ (skipped f v)); [|exact H1].
    intros st x _. now apply mp4Step_skips. }
  intros st2 [_ H2].
  apply (post_forOf _ (fun ts => forall t, In t ts -> videoFileName t <> Some v));
    [intros st x _; apply textStep_no_video | exact H2].
Qed.

Lemma processed_vtt_is_never_attached_witness :
  In (transcriptOf (Scenario.fileNamed "vtt-1" "Weekly Sync.vtt")
        "WEBVTT https://dl.example/vtt-1" None None)
     [transcriptOf (Scenario.fileNamed "vtt-1" "Weekly Sync.vtt")
        "WEBVTT https://dl.example/vtt-1" None None] /\
  forall t,
    In t [transcriptOf (Scenario.fileNamed "vtt-1" "Weekly Sync.vtt")
            "WEBVTT https://dl.example/vtt-1" None None] ->
    videoFileName t <> Some (name Scenario.recording).
Proof.
  apply (processed_vtt_is_never_attached (Scenario.quiet Scenario.weekly)
           Scenario.weekly 0 1 _ (Scenario.fileNamed "vtt-1" "Weekly Sync.vtt")
           "WEBVTT https://dl.example/vtt-1" (name Scenario.recording)).
  - reflexivity.
  - vm_compute; left; reflexivity.
  - intros k; reflexivity.
  - reflexivity.
Defined.
